(** * The ERC-721 event adapter of the indexer

    A shallow embedding of [src/sync/onchain/events/erc721/index.ts]
    (the adapter returned by [getContractInfo]) together with the pieces it
    calls: the ABI decoding of [@ethersproject/abi], the base-parameter
    extractor, the event tables and the maker-update queue.

    Conventions.
    - A 32-byte hex string (a topic, an ABI word) is the number it spells,
      a [Z] in [0, 2^256): the provider delivers such strings lowercase and
      of fixed width, so the string and the number determine each other.
    - [log.data] is a list of bytes.
    - Hashes and addresses carried through unchanged stay strings.
    - JavaScript exceptions are the [Thrown] outcome; code that mutates
      arrays while it may still throw runs in a state monad whose state
      survives a throw, as in JavaScript.
    - An [await]ed call of the store or of the queue is a step on the
      world that completes; database and queue outages are not part of
      the model. *)

From Stdlib Require Import Strings.Byte Strings.Ascii.
From stdpp Require Import base numbers list strings pretty gmap.

Local Open Scope Z_scope.

(** ** Exceptions *)

Inductive Error : Type :=
| MalformedLogError   (* base-parameter extraction: required metadata absent *)
| BUFFER_OVERRUN      (* ethers: data out-of-bounds *)
| INVALID_ARGUMENT    (* ethers: no matching event, value out of range, ... *)
| TypeError.          (* property access or method call on undefined *)

Inductive Outcome (A : Type) : Type :=
| Ok (a : A)
| Thrown (e : Error).

Arguments Ok {A} a.
Arguments Thrown {A} e.

#[global] Instance Error_eq_dec : EqDecision Error.
Proof. solve_decision. Defined.

#[global] Instance Outcome_ret : MRet Outcome := fun _ a => Ok a.

#[global] Instance Outcome_bind : MBind Outcome := fun _ _ k o =>
  match o with
  | Ok a => k a
  | Thrown e => Thrown e
  end.

Definition isThrown {A} (o : Outcome A) : bool :=
  match o with
  | Ok _ => false
  | Thrown _ => true
  end.

(** ** A state monad whose state survives exceptions

    [M S A] is a computation over a mutable state [S] that either returns
    an [A] or throws; in both cases the state reached so far is kept. *)

Definition M (S A : Type) : Type := S -> Outcome A * S.

Section EffectMonad.
Context {S : Type}.

Definition ret {A} (a : A) : M S A := fun s => (Ok a, s).

Definition bind {A B} (m : M S A) (k : A -> M S B) : M S B := fun s =>
  match m s with
  | (Ok a, s') => k a s'
  | (Thrown e, s') => (Thrown e, s')
  end.

(** An expression that may throw but touches no state. *)
Definition lift {A} (o : Outcome A) : M S A := fun s => (o, s).

(** [try { m } catch (error) { h error }]. *)
Definition tryCatch {A} (m : M S A) (h : Error -> M S A) : M S A := fun s =>
  match m s with
  | (Ok a, s') => (Ok a, s')
  | (Thrown e, s') => h e s'
  end.

Definition modify (f : S -> S) : M S unit := fun s => (Ok tt, f s).

(** [for (const x of xs) { body x }]. *)
Fixpoint forOf {A} (xs : list A) (body : A -> M S unit) : M S unit :=
  match xs with
  | [] => ret tt
  | x :: xs' => bind (body x) (fun _ => forOf xs' body)
  end.
End EffectMonad.

Notation "'let!' x := m 'in' k" := (bind m (fun x => k))
  (at level 10, x binder, k at level 200,
   format "'[v' 'let!'  x  :=  m  'in' '/' k ']'").

(** ** Raw logs ([Log] of [@ethersproject/abstract-provider])

    [blockHash], [transactionHash] and [logIndex] are the metadata the
    base-parameter extractor requires and that may be absent at run time;
    [timestamp] is the enclosing block's time, which the extractor receives
    with the raw log. *)

Module Log.
Record t : Type := mk {
  blockNumber : Z;
  blockHash : option string;
  transactionIndex : Z;
  removed : bool;
  address : string;
  data : list byte;
  topics : list Z;
  transactionHash : option string;
  logIndex : option Z;
  timestamp : Z;
}.

Definition set_topics (ts : list Z) (l : t) : t :=
  mk (blockNumber l) (blockHash l) (transactionIndex l) (removed l)
     (address l) (data l) ts (transactionHash l) (logIndex l) (timestamp l).
End Log.

(** ** Rendering numbers as the strings JavaScript produces *)

Definition hexDigit (n : Z) : ascii :=
  default "0"%char (String.get (Z.to_nat n) "0123456789abcdef").

Fixpoint hexDigits (n : nat) (z : Z) (acc : string) : string :=
  match n with
  | O => acc
  | Datatypes.S n' => hexDigits n' (z / 16) (String (hexDigit (z mod 16)) acc)
  end.

(** [getAddress(hexZeroPad(v, 20)).toLowerCase()]: the checksum casing that
    [getAddress] applies is undone by [toLowerCase], leaving "0x" and forty
    lowercase hex digits. *)
Definition addressToLowerCase (a : Z) : string := "0x" +:+ hexDigits 40 a "".

(** Big-endian value of a byte string ([BigNumber.from(bytes)]). *)
Definition bigEndian (bs : list byte) : Z :=
  foldl (fun acc b => acc * 256 + Z.of_N (Byte.to_N b)) 0 bs.

(** ** The ABI layer ([Interface] of [@ethersproject/abi])

    Only what the adapter's three event signatures need: the static types
    [address], [uint256] and [bool]. *)

Inductive SolType : Type := address_t | uint256_t | bool_t.

#[global] Instance SolType_eq_dec : EqDecision SolType.
Proof. solve_decision. Defined.

Definition SolType_format (ty : SolType) : string :=
  match ty with
  | address_t => "address"
  | uint256_t => "uint256"
  | bool_t => "bool"
  end.

Module ParamType.
Record t : Type := mk { type : SolType; indexed : bool; name : string }.
End ParamType.

Module EventFragment.
Record t : Type := mk { name : string; inputs : list ParamType.t }.

Fixpoint joinComma (l : list string) : string :=
  match l with
  | [] => ""
  | [s] => s
  | s :: l' => s +:+ "," +:+ joinComma l'
  end.

(** [fragment.format()]: the canonical signature, without [indexed]. *)
Definition format (f : t) : string :=
  name f +:+ "(" +:+
  joinComma (map (fun p => SolType_format (ParamType.type p)) (inputs f))
  +:+ ")".
End EventFragment.

(** [id(text)] is keccak256 of the UTF-8 text. The digests of the two
    canonical signatures this module ever hashes are tabulated. *)
Definition id (text : string) : Z :=
  if decide (text = "Transfer(address,address,uint256)") then
    0xddf252ad1be2c89b69c2b068fc378daa952ba7f163c4a11628f55a4df523b3ef
  else if decide (text = "ApprovalForAll(address,address,bool)") then
    0x17307eab39ab6107e8899845ad3d59bd9653f200f220920489ca2b5937696c31
  else 0.

(** Decoded values. An address is kept as its 160-bit number. *)
Inductive Value : Type :=
| VAddress (a : Z)
| VBigNumber (n : Z)
| VBool (b : bool).

(** [Result]: the decoded arguments by name. An entry holding [Thrown]
    is ethers' deferred error: it throws when the property is read. *)
Definition Result : Type := list (string * Outcome Value).

Module LogDescription.
Record t : Type := mk {
  eventFragment : EventFragment.t;
  name : string;
  signature : string;
  topic : Z;
  args : Result;
}.
End LogDescription.

Definition Interface : Type := list EventFragment.t.

(** [getEvent(name)]: the one fragment of that name; none or several
    is an error. *)
Definition getEventByName (iface : Interface) (name : string)
  : Outcome EventFragment.t :=
  match filter (fun f => EventFragment.name f = name) iface with
  | [f] => Ok f
  | _ => Thrown INVALID_ARGUMENT
  end.

(** [getEvent(topichash)]: the first fragment whose topic is the hash. *)
Definition getEventByTopic (iface : Interface) (topichash : Z)
  : Outcome EventFragment.t :=
  match list_find (fun f => id (EventFragment.format f) = topichash) iface with
  | Some (_, f) => Ok f
  | None => Thrown INVALID_ARGUMENT
  end.

Definition getEventTopic (iface : Interface) (name : string) : Outcome Z :=
  f ← getEventByName iface name;
  mret (id (EventFragment.format f)).

(** A [Reader] yields the 32-byte word at a word offset, or overruns. *)
Definition Reader : Type := nat -> Outcome Z.

(** Reading [concat(topics)]: every topic is one word. *)
Definition topicsReader (topics : list Z) : Reader := fun i =>
  match topics !! i with
  | Some w => Ok w
  | None => Thrown BUFFER_OVERRUN
  end.

(** Reading [log.data]: a word needs all of its 32 bytes. *)
Definition dataReader (data : list byte) : Reader := fun i =>
  let chunk := take 32 (drop (32 * i) data) in
  if decide (length chunk = 32%nat) then Ok (bigEndian chunk)
  else Thrown BUFFER_OVERRUN.

(** The coders. [AddressCoder] rejects a word wider than 20 bytes,
    [NumberCoder] masks to 256 bits, [BooleanCoder] tests for zero. *)
Definition coderDecode (ty : SolType) (w : Z) : Outcome Value :=
  match ty with
  | address_t =>
      if decide (w < 2 ^ 160) then Ok (VAddress w) else Thrown INVALID_ARGUMENT
  | uint256_t => Ok (VBigNumber (w mod 2 ^ 256))
  | bool_t => Ok (VBool (negb (w =? 0)))
  end.

(** [unpack]: an overrun aborts the whole decode; a coder's own error is
    kept in place of the value. *)
Fixpoint unpack (coders : list ParamType.t) (reader : Reader) (offset : nat)
  : Outcome (list (Outcome Value)) :=
  match coders with
  | [] => Ok []
  | coder :: coders' =>
      w ← reader offset;
      values ← unpack coders' reader (Datatypes.S offset);
      mret (coderDecode (ParamType.type coder) w :: values)
  end.

(** Interleave the indexed and the non-indexed results in declaration
    order, under the parameters' names. *)
Fixpoint assemble (inputs : list ParamType.t)
    (resultIndexed resultNonIndexed : list (Outcome Value)) : Result :=
  match inputs with
  | [] => []
  | param :: inputs' =>
      if ParamType.indexed param then
        match resultIndexed with
        | v :: rest => (ParamType.name param, v) :: assemble inputs' rest resultNonIndexed
        | [] => assemble inputs' [] resultNonIndexed
        end
      else
        match resultNonIndexed with
        | v :: rest => (ParamType.name param, v) :: assemble inputs' resultIndexed rest
        | [] => assemble inputs' resultIndexed []
        end
  end.

Definition decodeEventLog (eventFragment : EventFragment.t)
    (data : list byte) (topics : list Z) : Outcome Result :=
  match topics with
  | [] => Thrown INVALID_ARGUMENT
  | topic0 :: topics' =>
      if decide (topic0 = id (EventFragment.format eventFragment)) then
        let inputs := EventFragment.inputs eventFragment in
        let indexed := List.filter ParamType.indexed inputs in
        let nonIndexed :=
          List.filter (fun p => negb (ParamType.indexed p)) inputs in
        resultIndexed ← unpack indexed (topicsReader topics') 0;
        resultNonIndexed ← unpack nonIndexed (dataReader data) 0;
        mret (assemble inputs resultIndexed resultNonIndexed)
      else Thrown INVALID_ARGUMENT
  end.

Definition parseLog (iface : Interface) (log : Log.t)
  : Outcome LogDescription.t :=
  match Log.topics log !! 0%nat with
  | None => Thrown TypeError
  | Some topic0 =>
      fragment ← getEventByTopic iface topic0;
      args ← decodeEventLog fragment (Log.data log) (Log.topics log);
      mret (LogDescription.mk fragment (EventFragment.name fragment)
              (EventFragment.format fragment)
              (id (EventFragment.format fragment)) args)
  end.

(** Reading [args.<key>]: [None] is [undefined]; a deferred error throws. *)
Definition getArg (args : Result) (key : string) : Outcome (option Value) :=
  match list_find (fun kv => kv.1 = key) args with
  | None => Ok None
  | Some (_, (_, Ok v)) => Ok (Some v)
  | Some (_, (_, Thrown e)) => Thrown e
  end.

(** [v.toLowerCase()]: only a string (here, an address) has the method. *)
Definition toLowerCase (v : option Value) : Outcome string :=
  match v with
  | Some (VAddress a) => Ok (addressToLowerCase a)
  | _ => Thrown TypeError
  end.

(** [v.toString()] of a [BigNumber]: its decimal digits. The adapter calls
    it on [tokenId] only, which both ABIs declare [uint256]. *)
Definition toString (v : option Value) : Outcome string :=
  match v with
  | Some (VBigNumber n) => Ok (pretty n)
  | _ => Thrown TypeError
  end.

(** A plain read of a [bool] argument. *)
Definition asBool (v : option Value) : Outcome bool :=
  match v with
  | Some (VBool b) => Ok b
  | _ => Thrown TypeError
  end.

(** ** The adapter's ABI tables (index.ts, lines 20-42) *)

Definition abi : Interface := [
  EventFragment.mk "Transfer" [
    ParamType.mk address_t true "from";
    ParamType.mk address_t true "to";
    ParamType.mk uint256_t true "tokenId"
  ];
  EventFragment.mk "ApprovalForAll" [
    ParamType.mk address_t true "owner";
    ParamType.mk address_t true "operator";
    ParamType.mk bool_t false "approved"
  ]
].

(** The non-standard [Transfer]: the same, without the index on
    [tokenId]. *)
Definition nonStandardAbi : Interface := [
  EventFragment.mk "Transfer" [
    ParamType.mk address_t true "from";
    ParamType.mk address_t true "to";
    ParamType.mk uint256_t false "tokenId"
  ]
].

Definition TransferTopic : Z :=
  0xddf252ad1be2c89b69c2b068fc378daa952ba7f163c4a11628f55a4df523b3ef.

Definition ApprovalForAllTopic : Z :=
  0x17307eab39ab6107e8899845ad3d59bd9653f200f220920489ca2b5937696c31.

(** ** Domain events *)

Module BaseEventParams.
Record t : Type := mk {
  address : string;
  block : Z;
  blockHash : string;
  txHash : string;
  txIndex : Z;
  logIndex : Z;
  timestamp : Z;
}.
End BaseEventParams.

(** Modelled from the spec: [parseEvent] of [@/events/parser], which is not
    among the sources. Spec 4.1: it turns a raw log plus the enclosing
    block and transaction metadata into the per-event envelope, and fails
    with [MalformedLogError] if required metadata (block hash, tx hash,
    log index) is absent. *)
Definition parseEvent (log : Log.t) : Outcome BaseEventParams.t :=
  match Log.blockHash log, Log.transactionHash log, Log.logIndex log with
  | Some blockHash, Some txHash, Some logIndex =>
      Ok (BaseEventParams.mk (Log.address log) (Log.blockNumber log) blockHash
            txHash (Log.transactionIndex log) logIndex (Log.timestamp log))
  | _, _, _ => Thrown MalformedLogError
  end.

Module NftTransferEvent.
Record t : Type := mk {
  tokenId : string;
  from : string;
  to : string;
  amount : string;
  baseParams : BaseEventParams.t;
}.
End NftTransferEvent.

Module NftApprovalEvent.
Record t : Type := mk {
  owner : string;
  operator : string;
  approved : bool;
  baseParams : BaseEventParams.t;
}.
End NftApprovalEvent.

Inductive Side : Type := sell | buy.

Module MakerInfo.
Record t : Type := mk {
  context : string;
  side : Side;
  maker : string;
  contract : string;
  tokenId : option string;
  operator : option string;
  approved : option bool;
  checkApproval : option bool;
}.
End MakerInfo.

(** ** The event store

    Every event table has the primary key
    [(block_hash, tx_hash, log_index)]. *)

Definition PrimaryKey : Type := string * string * Z.

Class Row (R : Type) : Type := primaryKey : R -> PrimaryKey.

Definition dedupKey (b : BaseEventParams.t) : PrimaryKey :=
  (BaseEventParams.blockHash b, BaseEventParams.txHash b,
   BaseEventParams.logIndex b).

#[global] Instance NftTransferEvent_row : Row NftTransferEvent.t :=
  fun e => dedupKey (NftTransferEvent.baseParams e).

#[global] Instance NftApprovalEvent_row : Row NftApprovalEvent.t :=
  fun e => dedupKey (NftApprovalEvent.baseParams e).

(** The table of migration [1643809164130_cancels.sql]. A [BYTEA] column
    is kept as the hex string of its bytes; [order_kind_t] is an enum type
    created by another migration. *)
Module cancel_events.
Record row {order_kind_t : Type} : Type := mk {
  address : string;
  block : Z;
  block_hash : string;
  tx_hash : string;
  tx_index : Z;
  log_index : Z;
  timestamp : Z;
  order_kind : order_kind_t;
  order_id : string;
}.
Arguments row : clear implicits.

(** [ADD CONSTRAINT "cancel_events_pk" PRIMARY KEY (...)]. *)
Definition cancel_events_pk {order_kind_t} (r : row order_kind_t)
  : PrimaryKey :=
  (block_hash r, tx_hash r, log_index r).
End cancel_events.

#[global] Instance cancel_events_row {order_kind_t}
  : Row (cancel_events.row order_kind_t) := cancel_events.cancel_events_pk.

Section EventStore.
Context {R : Type} {row : Row R}.

Definition blockHashOf (r : R) : string := (primaryKey r).1.1.

(** The rows stored under a key, and the constraint that a primary key
    puts on a table. *)
Definition rowsWithKey (k : PrimaryKey) (table : list R) : list R :=
  filter (fun r => primaryKey r = k) table.

Definition pkUnique (table : list R) : Prop := NoDup (primaryKey <$> table).

(** Modelled from the spec: what [add] does with one event (spec 4.3):
    a row whose key is already stored is left as it is, a new key is
    appended. *)
Definition insertRow (table : list R) (e : R) : list R :=
  if decide (primaryKey e ∈ primaryKey <$> table) then table
  else table ++ [e].

(** Modelled from the spec: the store's [add] ([addNftApprovalEvents],
    [addNftTransferEvents] and their siblings are not among the sources).
    Spec 4.3: it upserts by dedup key [(blockHash, txHash, logIndex)];
    re-adding an already-stored event is a no-op with respect to visible
    state; empty input is a no-op; no stored row is ever updated in
    place. *)
Definition add (events : list R) (table : list R) : list R :=
  foldl insertRow table events.

(** Modelled from the spec: the store's [removeByBlockHash]
    ([removeNftApprovalEvents], [removeNftTransferEvents] are not among
    the sources). Spec 4.3: it deletes every stored event whose block
    hash equals the given hash. *)
Definition removeByBlockHash (blockHash : string) (table : list R) : list R :=
  filter (fun r => blockHashOf r ≠ blockHash) table.
End EventStore.

(** ** The world the adapter runs in *)

(** The part of [config] of [@/config/index] that the adapter reads. *)
Module Config.
Record t : Type := mk { acceptOrders : bool }.
End Config.

(** What [logger.error("erc721_callback", `Could not parse log ${log}:
    ${error}`)] records: the component and the two values the message
    interpolates. *)
Module LogEntry.
Record t : Type := mk { component : string; log : Log.t; error : Error }.
End LogEntry.

Module World.
Record t : Type := mk {
  nft_approval_events : list NftApprovalEvent.t;
  nft_transfer_events : list NftTransferEvent.t;
  (** one entry per call of [addToOrdersUpdateByMakerQueue] *)
  ordersUpdateByMakerQueue : list (list MakerInfo.t);
  logger : list LogEntry.t;
  config : Config.t;
}.

Definition set_nft_approval_events f (w : t) : t :=
  mk (f (nft_approval_events w)) (nft_transfer_events w)
     (ordersUpdateByMakerQueue w) (logger w) (config w).
Definition set_nft_transfer_events f (w : t) : t :=
  mk (nft_approval_events w) (f (nft_transfer_events w))
     (ordersUpdateByMakerQueue w) (logger w) (config w).
Definition set_ordersUpdateByMakerQueue f (w : t) : t :=
  mk (nft_approval_events w) (nft_transfer_events w)
     (f (ordersUpdateByMakerQueue w)) (logger w) (config w).
Definition set_logger f (w : t) : t :=
  mk (nft_approval_events w) (nft_transfer_events w)
     (ordersUpdateByMakerQueue w) (f (logger w)) (config w).
End World.

(** Modelled from the spec: [addNftApprovalEvents] of
    [@/events/common/nft-approvals], the store's [add] on the approvals
    table. *)
Definition addNftApprovalEvents (events : list NftApprovalEvent.t)
  : M World.t unit :=
  modify (World.set_nft_approval_events (add events)).

(** Modelled from the spec: [addNftTransferEvents] of
    [@/events/common/nft-transfers], the store's [add] on the transfers
    table. *)
Definition addNftTransferEvents (events : list NftTransferEvent.t)
  : M World.t unit :=
  modify (World.set_nft_transfer_events (add events)).

(** Modelled from the spec: [removeNftApprovalEvents], the store's
    [removeByBlockHash] on the approvals table. *)
Definition removeNftApprovalEvents (blockHash : string) : M World.t unit :=
  modify (World.set_nft_approval_events (removeByBlockHash blockHash)).

(** Modelled from the spec: [removeNftTransferEvents], the store's
    [removeByBlockHash] on the transfers table. *)
Definition removeNftTransferEvents (blockHash : string) : M World.t unit :=
  modify (World.set_nft_transfer_events (removeByBlockHash blockHash)).

(** Modelled from the spec: [addToOrdersUpdateByMakerQueue] of
    [@/jobs/orders-update], which is not among the sources. Spec 4.4:
    [enqueue(items) -> ()] hands the batch to the queue. Each call is
    recorded with its batch. *)
Definition addToOrdersUpdateByMakerQueue (makerInfos : list MakerInfo.t)
  : M World.t unit :=
  modify (World.set_ordersUpdateByMakerQueue (fun q => q ++ [makerInfos])).

(** Modelled from the spec: [logger.error] of [@/common/logger], which is
    not among the sources. Spec 4.5: a per-log decode failure is logged;
    each call appends one entry. *)
Definition logger_error (component : string) (log : Log.t) (error : Error)
  : M World.t unit :=
  modify (World.set_logger (fun l => l ++ [LogEntry.mk component log error])).

(** ** The adapter (index.ts, lines 44-137) *)

(** The three local arrays of one [syncCallback] call. *)
Module Locals.
Record t : Type := mk {
  approvalEvents : list NftApprovalEvent.t;
  transferEvents : list NftTransferEvent.t;
  makerInfos : list MakerInfo.t;
}.

Definition empty : t := mk [] [] [].

Definition push_approvalEvents (e : NftApprovalEvent.t) : M t unit :=
  modify (fun ls => mk (approvalEvents ls ++ [e]) (transferEvents ls)
                       (makerInfos ls)).
Definition push_transferEvents (e : NftTransferEvent.t) : M t unit :=
  modify (fun ls => mk (approvalEvents ls) (transferEvents ls ++ [e])
                       (makerInfos ls)).
Definition push_makerInfos (m : MakerInfo.t) : M t unit :=
  modify (fun ls => mk (approvalEvents ls) (transferEvents ls)
                       (makerInfos ls ++ [m])).

(** Array-wise concatenation, used to state what a log adds. *)
Definition app (ls more : t) : t :=
  mk (approvalEvents ls ++ approvalEvents more)
     (transferEvents ls ++ transferEvents more)
     (makerInfos ls ++ makerInfos more).
End Locals.

(** A running call: its local arrays and the world. *)
Definition Frame : Type := Locals.t * World.t.

Definition inLocals {A} (m : M Locals.t A) : M Frame A := fun fr =>
  let '(o, ls) := m fr.1 in (o, (ls, fr.2)).

Definition inWorld {A} (m : M World.t A) : M Frame A := fun fr =>
  let '(o, w) := m fr.2 in (o, (fr.1, w)).

Definition readLocals {A} (f : Locals.t -> A) : M Frame A := fun fr =>
  (Ok (f fr.1), fr).

(** Lines 59-64: the primary table first, the non-standard one if that
    throws. *)
Definition parseTransferLog (log : Log.t) : Outcome LogDescription.t :=
  match parseLog abi log with
  | Ok parsedLog => Ok parsedLog
  | Thrown _ => parseLog nonStandardAbi log
  end.

(** Lines 57-121: the [switch] on [log.topics[0]]. *)
Definition dispatch (log : Log.t) (baseParams : BaseEventParams.t)
    (context : string) : M Locals.t unit :=
  let! transferTopic := lift (getEventTopic abi "Transfer") in
  if decide (Log.topics log !! 0%nat = Some transferTopic) then
    let! parsedLog := lift (parseTransferLog log) in
    let args := LogDescription.args parsedLog in
    let! from := lift (getArg args "from" ≫= toLowerCase) in
    let! to := lift (getArg args "to" ≫= toLowerCase) in
    let! tokenId := lift (getArg args "tokenId" ≫= toString) in
    let amount := "1" in
    let! _ := Locals.push_transferEvents
                (NftTransferEvent.mk tokenId from to amount baseParams) in
    let! _ := Locals.push_makerInfos
                (MakerInfo.mk context sell from
                   (BaseEventParams.address baseParams)
                   (Some tokenId) None None None) in
    Locals.push_makerInfos
      (MakerInfo.mk context sell to
         (BaseEventParams.address baseParams)
         (Some tokenId) None None None)
  else
    let! approvalTopic := lift (getEventTopic abi "ApprovalForAll") in
    if decide (Log.topics log !! 0%nat = Some approvalTopic) then
      let! parsedLog := lift (parseLog abi log) in
      let args := LogDescription.args parsedLog in
      let! owner := lift (getArg args "owner" ≫= toLowerCase) in
      let! operator := lift (getArg args "operator" ≫= toLowerCase) in
      let! approved := lift (getArg args "approved" ≫= asBool) in
      let! _ := Locals.push_approvalEvents
                  (NftApprovalEvent.mk owner operator approved baseParams) in
      Locals.push_makerInfos
        (MakerInfo.mk context sell owner
           (BaseEventParams.address baseParams)
           None (Some operator) (Some approved) (Some true))
    else ret tt.

(** Lines 53-121: the body of the [try]. *)
Definition processLog (log : Log.t) : M Locals.t unit :=
  let! baseParams := lift (parseEvent log) in
  let context :=
    BaseEventParams.txHash baseParams +:+ "-" +:+
    pretty (BaseEventParams.logIndex baseParams) in
  dispatch log baseParams context.

(** Lines 52-124: the [try] with its [catch]. *)
Definition loopBody (log : Log.t) : M Frame unit :=
  tryCatch (inLocals (processLog log))
    (fun error => inWorld (logger_error "erc721_callback" log error)).

(** [!backfill] for the optional parameter [backfill?: boolean]. *)
Definition notBackfill (backfill : option bool) : bool :=
  match backfill with
  | Some true => false
  | _ => true
  end.

(** Lines 51-131, on the frame of the call. *)
Definition syncCallbackBody (logs : list Log.t) (backfill : option bool)
  : M Frame unit :=
  let! _ := forOf logs loopBody in
  let! approvalEvents := readLocals Locals.approvalEvents in
  let! _ := inWorld (addNftApprovalEvents approvalEvents) in
  let! transferEvents := readLocals Locals.transferEvents in
  let! _ := inWorld (addNftTransferEvents transferEvents) in
  let! config := inWorld (fun w => (Ok (World.config w), w)) in
  if notBackfill backfill && Config.acceptOrders config then
    let! makerInfos := readLocals Locals.makerInfos in
    inWorld (addToOrdersUpdateByMakerQueue makerInfos)
  else ret tt.

(** A log filter: [address] as the source names it; the topic selector is
    optional. *)
Module Filter.
Record t : Type := mk {
  address : list string;
  topics : option (list Z);
}.
End Filter.

Module ContractInfo.
Record t : Type := mk {
  filter : Filter.t;
  syncCallback : list Log.t -> option bool -> M World.t unit;
  fixCallback : string -> M World.t unit;
}.
End ContractInfo.

(** [getContractInfo(address: string[] = [])]. *)
Definition getContractInfo (address : option (list string)) : ContractInfo.t :=
  let address := default [] address in
  ContractInfo.mk
    (Filter.mk address None)
    (fun logs backfill w =>
       let '(o, fr) := syncCallbackBody logs backfill (Locals.empty, w) in
       (o, fr.2))
    (fun blockHash =>
       let! _ := removeNftApprovalEvents blockHash in
       removeNftTransferEvents blockHash).

(** What the loop of [syncCallback] leaves in the three arrays. *)
Definition decodeLogs (logs : list Log.t) (w : World.t) : Locals.t :=
  (forOf logs loopBody (Locals.empty, w)).2.1.

(** ** Vocabulary of the properties

    Nothing below belongs to the adapter; these definitions name what the
    theorems talk about. *)

(** [baseParams.txHash + "-" + baseParams.logIndex.toString()]. *)
Definition contextOf (baseParams : BaseEventParams.t) : string :=
  BaseEventParams.txHash baseParams +:+ "-" +:+
  pretty (BaseEventParams.logIndex baseParams).

(** The body of the [try] run on empty arrays. *)
Definition contribution (log : Log.t) : Outcome unit * Locals.t :=
  processLog log Locals.empty.

(** The four ways the body of the [try] can end, with what each leaves in
    the arrays. *)
Inductive Contributes (log : Log.t) : Outcome unit * Locals.t -> Prop :=
| Contributes_thrown e :
    Contributes log (Thrown e, Locals.empty)
| Contributes_skipped baseParams :
    parseEvent log = Ok baseParams ->
    Log.topics log !! 0%nat ≠ Some TransferTopic ->
    Log.topics log !! 0%nat ≠ Some ApprovalForAllTopic ->
    Contributes log (Ok tt, Locals.empty)
| Contributes_transfer baseParams parsedLog from to tokenId :
    parseEvent log = Ok baseParams ->
    Log.topics log !! 0%nat = Some TransferTopic ->
    parseTransferLog log = Ok parsedLog ->
    getArg (LogDescription.args parsedLog) "from" ≫= toLowerCase = Ok from ->
    getArg (LogDescription.args parsedLog) "to" ≫= toLowerCase = Ok to ->
    getArg (LogDescription.args parsedLog) "tokenId" ≫= toString = Ok tokenId ->
    Contributes log
      (Ok tt,
       Locals.mk []
         [NftTransferEvent.mk tokenId from to "1" baseParams]
         [MakerInfo.mk (contextOf baseParams) sell from
            (BaseEventParams.address baseParams) (Some tokenId) None None None;
          MakerInfo.mk (contextOf baseParams) sell to
            (BaseEventParams.address baseParams) (Some tokenId) None None None])
| Contributes_approval baseParams parsedLog owner operator approved :
    parseEvent log = Ok baseParams ->
    Log.topics log !! 0%nat ≠ Some TransferTopic ->
    Log.topics log !! 0%nat = Some ApprovalForAllTopic ->
    parseLog abi log = Ok parsedLog ->
    getArg (LogDescription.args parsedLog) "owner" ≫= toLowerCase = Ok owner ->
    getArg (LogDescription.args parsedLog) "operator" ≫= toLowerCase
      = Ok operator ->
    getArg (LogDescription.args parsedLog) "approved" ≫= asBool = Ok approved ->
    Contributes log
      (Ok tt,
       Locals.mk
         [NftApprovalEvent.mk owner operator approved baseParams]
         []
         [MakerInfo.mk (contextOf baseParams) sell owner
            (BaseEventParams.address baseParams)
            None (Some operator) (Some approved) (Some true)]).

(** What a batch leaves in the arrays, and what it sends to the logger. *)
Definition decoded (logs : list Log.t) : Locals.t :=
  foldr (fun log acc => Locals.app (contribution log).2 acc) Locals.empty logs.

Definition failures (logs : list Log.t) : list LogEntry.t :=
  flat_map (fun log =>
    match (contribution log).1 with
    | Ok _ => []
    | Thrown e => [LogEntry.mk "erc721_callback" log e]
    end) logs.

(** The decoded arguments of a [Transfer] log, from either table. *)
Definition transferArgs (from to tokenId : Z) : Result :=
  [("from", coderDecode address_t from);
   ("to", coderDecode address_t to);
   ("tokenId", Ok (VBigNumber (tokenId mod 2 ^ 256)))].

(** A log whose [topics[0]] one of the two [case] labels matches. *)
Definition recognisedTopic (log : Log.t) : Prop :=
  Log.topics log !! 0%nat = Some TransferTopic ∨
  Log.topics log !! 0%nat = Some ApprovalForAllTopic.

#[global] Instance recognisedTopic_dec log : Decision (recognisedTopic log).
Proof. unfold recognisedTopic. apply _. Defined.

(** The number of events held in the two event arrays. *)
Definition eventCount (ls : Locals.t) : nat :=
  (length (Locals.approvalEvents ls) + length (Locals.transferEvents ls))%nat.

(** ** Sample inputs *)

Module Sample.

(** The 32-byte big-endian encoding of a number. *)
Definition word (n : Z) : list byte :=
  map (fun i : nat =>
         default x00
           (Byte.of_N (Z.to_N ((n / 256 ^ (31 - Z.of_nat i)) mod 256))))
      (seq 0 32).

Definition mkLog (blockHash : option string) (logIndex : Z)
    (topics : list Z) (data : list byte) : Log.t :=
  Log.mk 14000000 blockHash 3 false
    "0x8d04a8c79ceb0889bdd12acdf3fa9d207ed3ff63" data topics
    (Some "0x7a11") (Some logIndex) 1643809164.

Definition alice : Z := 0xaaaaaaaaaaaaaaaaaaaaaaaaaaaaaaaaaaaaaaaa.
Definition bob : Z := 0xbbbbbbbbbbbbbbbbbbbbbbbbbbbbbbbbbbbbbbbb.

(** keccak256 of "Approval(address,address,uint256)", the per-token
    approval event every ERC-721 contract also emits. *)
Definition ApprovalTopic : Z :=
  0x8c5be1e5ebec7d5bd14f71427d1e84f3dd0314c0f7b2291e5b200ac8c7c3b925.

Definition standardTransfer : Log.t :=
  mkLog (Some "0xb10c") 0 [TransferTopic; alice; bob; 7] [].

(** The same transfer from an old contract: [tokenId] travels in the
    data. *)
Definition nonStandardTransfer : Log.t :=
  mkLog (Some "0xb10c") 1 [TransferTopic; alice; bob] (word 7).

Definition approvalForAll : Log.t :=
  mkLog (Some "0xb10c") 2 [ApprovalForAllTopic; alice; bob] (word 1).

(** A [Transfer] log with too few topics and no data: neither table
    decodes it. *)
Definition truncatedTransfer : Log.t :=
  mkLog (Some "0xb10c") 3 [TransferTopic; alice] [].

(** A [Transfer] log whose sender word does not fit in 20 bytes: it
    parses, and reading [args.from] throws. *)
Definition dirtyTransfer : Log.t :=
  mkLog (Some "0xb10c") 6 [TransferTopic; 2 ^ 200; bob; 7] [].

(** A well-formed per-token approval. *)
Definition tokenApproval : Log.t :=
  mkLog (Some "0xb10c") 4 [ApprovalTopic; alice; bob; 7] [].

(** The same per-token approval, delivered without a block hash. *)
Definition pendingTokenApproval : Log.t :=
  mkLog None 5 [ApprovalTopic; alice; bob; 7] [].

Definition world : World.t := World.mk [] [] [] [] (Config.mk true).

Definition cancel : cancel_events.row string :=
  cancel_events.mk string "0x8d04" 14000000 "0xb10c" "0x7a11" 3 9 1643809164
    "wyvern-v2" "0x0dd".

End Sample.

(** The decoded arguments of an [ApprovalForAll] log. *)
Definition approvalArgs (owner operator approved : Z) : Result :=
  [("owner", coderDecode address_t owner);
   ("operator", coderDecode address_t operator);
   ("approved", Ok (VBool (negb (approved =? 0))))].

(** ** Further sample inputs *)

Module Fixture.

(** A transfer stored earlier, from another block. *)
Definition earlierTransfer : NftTransferEvent.t :=
  NftTransferEvent.mk "42" "0x00000000000000000000000000000000000000a1"
    "0x00000000000000000000000000000000000000b2" "1"
    (BaseEventParams.mk "0x8d04a8c79ceb0889bdd12acdf3fa9d207ed3ff63"
       13999999 "0xa11c" "0x5e7d" 0 1 1643809100).

Definition world : World.t :=
  World.mk [] [earlierTransfer] [] [] (Config.mk true).

(** Logs of block 0xb10c: two that decode, one that fails, one that is
    skipped. *)
Definition batch : list Log.t :=
  [Sample.standardTransfer; Sample.truncatedTransfer;
   Sample.approvalForAll; Sample.tokenApproval].

End Fixture.

(** ** The migration [1643809164130_cancels.sql]

    The three kinds of statement the migration uses, run on a catalog of
    types and relations: a statement either fails, with the error class
    PostgreSQL reports, or changes the catalog. All relations -- tables,
    indexes, and the views, sequences and composite types the migration
    does not touch -- share one name space. A table has a row type that
    bears its name: the name can be used as a column type, and a table
    cannot be created under the name of an existing type. A primary key
    owns an index named after the constraint, and dropping a table drops
    that index and the row type with it. The catalog holds no rows and
    does not record which objects depend on a table. A migration runs in
    a transaction: it either completes or leaves the catalog as it was. *)

Module Sql.

Inductive DataType : Type :=
| INT
| BYTEA
| TEXT
| Named (name : string).

Record Column : Type := mkColumn {
  columnName : string;
  columnType : DataType;
  notNull : bool;
}.

(** [Other] stands for the relations that are neither tables nor
    indexes; of these, views and composite types have a row type and
    sequences have none. *)
Inductive Relation : Type :=
| Table (columns : list Column) (primaryKey : option (string * list string))
| Index (table : string) (columns : list string)
| Other (rowType : bool).

(** [types] holds the names of the types that are not row types: enums,
    domains and the like. *)
Record Catalog : Type := mkCatalog {
  types : gset string;
  relations : gmap string Relation;
}.

Inductive SqlError : Type :=
| duplicate_table
| duplicate_column
| duplicate_object
| undefined_table
| undefined_object
| undefined_column
| wrong_object_type
| invalid_table_definition
| feature_not_supported.

Inductive Statement : Type :=
| CreateTable (name : string) (columns : list Column)
| AddPrimaryKey (table constraintName : string) (columns : list string)
| DropTable (name : string).

(** The columns every table has without declaring them. *)
Definition systemColumns : list string :=
  ["tableoid"; "cmax"; "xmax"; "cmin"; "xmin"; "ctid"].

Definition hasRowType (relation : Relation) : bool :=
  match relation with
  | Table _ _ => true
  | Index _ _ => false
  | Other rowType => rowType
  end.

(** A name denotes a type when it is in [types] or is the name of a
    relation that has a row type, which bears the relation's name. *)
Definition typeExists (c : Catalog) (name : string) : bool :=
  bool_decide (name ∈ types c)
  || from_option hasRowType false (relations c !! name).

Definition typeKnown (c : Catalog) (ty : DataType) : bool :=
  match ty with
  | Named name => typeExists c name
  | _ => true
  end.

Definition exec (stmt : Statement) (c : Catalog) : SqlError + Catalog :=
  match stmt with
  | CreateTable name columns =>
      if bool_decide (is_Some (relations c !! name)) then inl duplicate_table
      else if negb (forallb (fun col => typeKnown c (columnType col)) columns)
      then inl undefined_object
      else if negb (bool_decide
                      (NoDup ((columnName <$> columns) ++ systemColumns)))
      then inl duplicate_column
      else if bool_decide (name ∈ types c) then inl duplicate_object
      else inr (mkCatalog (types c)
                  (<[name := Table columns None]> (relations c)))
  | AddPrimaryKey table constraintName keyColumns =>
      match relations c !! table with
      | None => inl undefined_table
      | Some (Index _ _) | Some (Other _) => inl wrong_object_type
      | Some (Table columns primaryKey) =>
          if negb (bool_decide (NoDup keyColumns)) then inl duplicate_column
          else if negb (forallb
                          (fun k => bool_decide
                                      (k ∈ (columnName <$> columns)
                                           ++ systemColumns))
                          keyColumns)
          then inl undefined_column
          else if bool_decide (is_Some primaryKey) then
            inl invalid_table_definition
          else if negb (forallb
                          (fun k => bool_decide (k ∈ columnName <$> columns))
                          keyColumns)
          then inl feature_not_supported
          else if bool_decide (is_Some (relations c !! constraintName)) then
            inl duplicate_table
          else
            let columns' :=
              (fun col =>
                 if bool_decide (columnName col ∈ keyColumns)
                 then mkColumn (columnName col) (columnType col) true
                 else col) <$> columns in
            inr (mkCatalog (types c)
                   (<[constraintName := Index table keyColumns]>
                      (<[table := Table columns'
                                    (Some (constraintName, keyColumns))]>
                         (relations c))))
      end
  | DropTable name =>
      match relations c !! name with
      | None => inl undefined_table
      | Some (Index _ _) | Some (Other _) => inl wrong_object_type
      | Some (Table _ None) =>
          inr (mkCatalog (types c) (delete name (relations c)))
      | Some (Table _ (Some (constraintName, _))) =>
          inr (mkCatalog (types c)
                 (delete constraintName (delete name (relations c))))
      end
  end.

Fixpoint run (stmts : list Statement) (c : Catalog) : SqlError + Catalog :=
  match stmts with
  | [] => inr c
  | stmt :: stmts' =>
      match exec stmt c with
      | inl e => inl e
      | inr c' => run stmts' c'
      end
  end.

(** Lines 3-13. *)
Definition cancel_events_columns : list Column := [
  mkColumn "address" BYTEA true;
  mkColumn "block" INT true;
  mkColumn "block_hash" BYTEA true;
  mkColumn "tx_hash" BYTEA true;
  mkColumn "tx_index" INT true;
  mkColumn "log_index" INT true;
  mkColumn "timestamp" INT true;
  mkColumn "order_kind" (Named "order_kind_t") true;
  mkColumn "order_id" TEXT true
].

(** Lines 1-17: the up migration. *)
Definition up : list Statement := [
  CreateTable "cancel_events" cancel_events_columns;
  AddPrimaryKey "cancel_events" "cancel_events_pk"
    ["block_hash"; "tx_hash"; "log_index"]
].

(** Lines 19-21: the down migration. *)
Definition down : list Statement := [DropTable "cancel_events"].

(** A catalog that only holds the enum type the table needs. *)
Definition fresh : Catalog := mkCatalog {["order_kind_t"]} ∅.

End Sql.

(** ** The route handler [getUserCollectionsV2Options.handler]

    The handler works on values of type [any]. [JsValue] is what request
    fields and database columns can hold; JavaScript numbers and strings
    are kept abstract and enter through [Runtime], next to the helpers of
    [@/common/utils] and [@/common/db], which are not among the sources. *)

#[warnings="-register-all"]
Inductive JsValue {number text : Type} : Type :=
| undefined
| null
| boolean (b : bool)
| num (n : number)
| str (s : text)
| buffer (bytes : list byte)
| array (items : list JsValue).

Arguments JsValue : clear implicits.

Class Runtime : Type := {
  number : Type;
  text : Type;
  (** [0], [-0] and [NaN] *)
  numberIsFalsy : number -> bool;
  numberOfByte : byte -> number;
  textIsEmpty : text -> bool;
  (** [s[0]] of a non-empty string *)
  textFirst : text -> text;
  (** [String(v)] *)
  toText : JsValue number text -> text;
  toBuffer : JsValue number text -> Outcome (JsValue number text);
  fromBuffer : JsValue number text -> Outcome (JsValue number text);
  formatEth : JsValue number text -> Outcome (JsValue number text);
  (** [edb.manyOrNone(query, values)] against the database of the request *)
  manyOrNone : string -> gmap string (JsValue number text)
               -> Outcome (list (gmap string (JsValue number text)));
  (** the [SELECT ... FROM nft_balances JOIN ...] text of lines 111-152 *)
  selectClause : string;
}.

Module UserCollections.

Section Handler.
Context {runtime : Runtime}.

Definition value : Type := JsValue number text.
Definition object : Type := gmap string value.

(** [if (v)], [v ? a : b], [v || w]. *)
Definition truthy (v : value) : bool :=
  match v with
  | undefined | null => false
  | boolean b => b
  | num n => negb (numberIsFalsy n)
  | str s => negb (textIsEmpty s)
  | buffer _ | array _ => true
  end.

(** [o.key]. *)
Definition get (o : object) (key : string) : value :=
  default undefined (o !! key).

Fixpoint join (separator : string) (items : list string) : string :=
  match items with
  | [] => ""
  | [item] => item
  | item :: items' => item +:+ separator +:+ join separator items'
  end.

(** Lines 156-163. *)
Definition conditions (query : object) : list string :=
  let conditions :=
    ["nft_balances.owner = $/user/"; "nft_balances.amount > 0"] in
  let conditions :=
    if truthy (get query "community")
    then conditions ++ ["collections.community = $/community/"]
    else conditions in
  if truthy (get query "collection")
  then conditions ++ ["collections.id = $/collection/"]
  else conditions.

(** Lines 178-189. *)
Definition topBidQuery (query : object) : string :=
  if truthy (get query "includeTopBid") then
    "LEFT JOIN LATERAL (
          SELECT
            token_sets.top_buy_value,
            token_sets.top_buy_maker
          FROM token_sets
          WHERE token_sets.id = x.token_set_id
          ORDER BY token_sets.top_buy_value DESC
          LIMIT 1
        ) y ON TRUE"
  else "".

(** Lines 111-196: the text handed to the database. *)
Definition queryText (query : object) : string :=
  let baseQuery := selectClause in
  let conditions := conditions query in
  let baseQuery :=
    if bool_decide (length conditions ≠ 0%nat) then
      baseQuery +:+ " WHERE " +:+
      join " AND " ((fun c => "(" +:+ c +:+ ")") <$> conditions)
    else baseQuery in
  let baseQuery :=
    baseQuery +:+ " GROUP BY collections.id, nft_balances.owner" in
  let baseQuery :=
    baseQuery +:+ " ORDER BY collections.all_time_volume DESC" in
  let baseQuery := baseQuery +:+ " OFFSET $/offset/" in
  let baseQuery := baseQuery +:+ " LIMIT $/limit/" in
  "
        WITH x AS (" +:+ baseQuery +:+ ")
        SELECT *
        FROM x
        " +:+ topBidQuery query +:+ "
      ".

(** The response objects of lines 200-244; the keys [1day], [7day] and
    [30day] are spelled [day1], [day7] and [day30]. *)
Record Rank : Type := mkRank {
  rank_day1 : value; rank_day7 : value; rank_day30 : value;
  rank_allTime : value;
}.

Record Volume : Type := mkVolume {
  volume_day1 : value; volume_day7 : value; volume_day30 : value;
  volume_allTime : value;
}.

Record VolumeChange : Type := mkVolumeChange {
  volumeChange_day1 : value; volumeChange_day7 : value;
  volumeChange_day30 : value;
}.

Record FloorSale : Type := mkFloorSale {
  floorSale_day1 : value; floorSale_day7 : value; floorSale_day30 : value;
}.

Record Collection : Type := mkCollection {
  id_ : value;
  slug : value;
  name : value;
  image : value;
  banner : value;
  discordUrl : value;
  externalUrl : value;
  twitterUsername : value;
  description : value;
  sampleImages : value;
  tokenCount : text;
  primaryContract : value;
  tokenSetId : value;
  floorAskPrice : value;
  rank : Rank;
  volume : Volume;
  volumeChange : VolumeChange;
  floorSale : FloorSale;
  (** set only when [query.includeTopBid] is truthy *)
  topBidValue : option value;
  topBidMaker : option value;
}.

Record Ownership : Type := mkOwnership {
  ownership_tokenCount : text;
  onSaleCount : text;
  liquidCount : text;
}.

Record Response : Type := mkResponse {
  collection : Collection;
  ownership : Ownership;
}.

(** [v?.length ? v[0] : null]. *)
Definition firstOrNull (v : value) : value :=
  match v with
  | array (item :: _) => item
  | str s => if textIsEmpty s then null else str (textFirst s)
  | buffer (b :: _) => num (numberOfByte b)
  | _ => null
  end.

(** [v ? formatEth(v) : null] and [v ? fromBuffer(v) : null]. *)
Definition formatEthOrNull (v : value) : Outcome value :=
  if truthy v then formatEth v else Ok null.

Definition fromBufferOrNull (v : value) : Outcome value :=
  if truthy v then fromBuffer v else Ok null.

(** Lines 199-256: the callback of [_.map]. *)
Definition toResponse (query : object) (r : object) : Outcome Response :=
  let image :=
    if truthy (get r "image") then get r "image"
    else firstOrNull (get r "sample_images") in
  let sampleImages :=
    if truthy (get r "sample_images") then get r "sample_images"
    else array [] in
  primaryContract ← fromBuffer (get r "contract");
  floorAskPrice ← formatEthOrNull (get r "floor_sell_value");
  volume1 ← formatEthOrNull (get r "day1_volume");
  volume7 ← formatEthOrNull (get r "day7_volume");
  volume30 ← formatEthOrNull (get r "day30_volume");
  volumeAll ← formatEthOrNull (get r "all_time_volume");
  floor1 ← formatEthOrNull (get r "day1_floor_sell_value");
  floor7 ← formatEthOrNull (get r "day7_floor_sell_value");
  floor30 ← formatEthOrNull (get r "day30_floor_sell_value");
  let response topBidValue topBidMaker :=
    mkResponse
      (mkCollection (get r "id") (get r "slug") (get r "name") image
         (get r "banner") (get r "discord_url") (get r "external_url")
         (get r "twitter_username") (get r "description") sampleImages
         (toText (get r "token_count")) primaryContract
         (get r "token_set_id") floorAskPrice
         (mkRank (get r "day1_rank") (get r "day7_rank")
            (get r "day30_rank") (get r "all_time_rank"))
         (mkVolume volume1 volume7 volume30 volumeAll)
         (mkVolumeChange (get r "day1_volume_change")
            (get r "day7_volume_change") (get r "day30_volume_change"))
         (mkFloorSale floor1 floor7 floor30)
         topBidValue topBidMaker)
      (mkOwnership (toText (get r "owner_token_count"))
         (toText (get r "owner_on_sale_count"))
         (toText (get r "owner_liquid_count"))) in
  if truthy (get query "includeTopBid") then
    topBidValue ← formatEthOrNull (get r "top_buy_value");
    topBidMaker ← fromBufferOrNull (get r "top_buy_maker");
    mret (response (Some topBidValue) (Some topBidMaker))
  else mret (response None None).

(** [_.map(result, callback)] with a callback that may throw. *)
Fixpoint mapRows {A B} (f : A -> Outcome B) (rows : list A)
  : Outcome (list B) :=
  match rows with
  | [] => Ok []
  | row :: rows' =>
      b ← f row;
      bs ← mapRows f rows';
      mret (b :: bs)
  end.

(** What the handler can change: [request.params] and the logger. *)
Record State : Type := mkState {
  params : object;
  errors : list (string * Error);
}.

(** [{ ...params, ...query }]: on a common key the later spread wins. *)
Definition spread (params query : object) : object := query ∪ params.

(** Lines 110-258: the body of the [try]. *)
Definition handlerBody (query : object) : M State (list Response) :=
  let! requestParams := (fun st => (Ok (params st), st)) in
  let! user := lift (toBuffer (get requestParams "user")) in
  let! _ := modify (fun st => mkState (<["user" := user]> (params st))
                                      (errors st)) in
  let baseQuery := queryText query in
  let! requestParams := (fun st => (Ok (params st), st)) in
  let! result := lift (manyOrNone baseQuery (spread requestParams query)) in
  lift (mapRows (toResponse query) result).

(** Lines 106-263: [handler], which returns [{ collections }]. *)
Definition handler (query : object) : M State (list Response) :=
  tryCatch (handlerBody query)
    (fun error =>
       let! _ := modify (fun st =>
                   mkState (params st)
                     (errors st ++
                        [("get-user-collections-v2-handler", error)])) in
       lift (Thrown error)).

End Handler.

End UserCollections.

(** A stand-in runtime for the examples: numbers are integers, strings
    are strings, a buffer holds the bytes of the string it was made from,
    and the database answers every query with the one row [row]. *)
Module HandlerFixture.

Definition row : gmap string (JsValue Z string) :=
  list_to_map [
    ("id", str "0x8d04a8c79ceb0889bdd12acdf3fa9d207ed3ff63");
    ("name", str "Blocks");
    ("image", null);
    ("sample_images", array [str "https://img/1.png"; str "https://img/2.png"]);
    ("contract", buffer [x8d; x04]);
    ("token_count", num 10000);
    ("floor_sell_value", null);
    ("day1_volume", str "2500000000000000000");
    ("top_buy_value", null);
    ("top_buy_maker", null);
    ("owner_token_count", str "3")
  ].

#[global] Instance runtime : Runtime := {|
  number := Z;
  text := string;
  numberIsFalsy := fun n => n =? 0;
  numberOfByte := fun b => Z.of_N (Byte.to_N b);
  textIsEmpty := fun s => bool_decide (s = "");
  textFirst := fun s => match s with String c _ => String c "" | _ => "" end;
  toText := fun v =>
    match v with
    | str s => s
    | num n => pretty n
    | boolean true => "true"
    | boolean false => "false"
    | null => "null"
    | _ => "undefined"
    end;
  toBuffer := fun v =>
    match v with
    | str s => Ok (buffer (String.list_byte_of_string s))
    | _ => Thrown TypeError
    end;
  fromBuffer := fun v =>
    match v with
    | buffer bytes => Ok (str (String.string_of_list_byte bytes))
    | _ => Thrown TypeError
    end;
  formatEth := fun v =>
    match v with
    | undefined | null => Thrown TypeError
    | _ => Ok v
    end;
  manyOrNone := fun _ _ => Ok [row];
  selectClause := "SELECT collections.id FROM nft_balances";
|}.

(** Two requests that differ only in the text of [community]. *)
Definition query1 : gmap string (JsValue Z string) :=
  list_to_map [("community", str "artblocks"); ("includeTopBid", boolean true)].

Definition query2 : gmap string (JsValue Z string) :=
  list_to_map [("community", str "x') OR (1 = 1");
               ("includeTopBid", boolean true)].

End HandlerFixture.

(** * Properties *)

(** ** The topics the [switch] compares against *)

Lemma getEventTopic_Transfer : getEventTopic abi "Transfer" = Ok TransferTopic.
Proof. reflexivity. Qed.

Lemma getEventTopic_ApprovalForAll :
  getEventTopic abi "ApprovalForAll" = Ok ApprovalForAllTopic.
Proof. reflexivity. Qed.

Lemma Transfer_ne_ApprovalForAll : TransferTopic ≠ ApprovalForAllTopic.
Proof. discriminate. Qed.

(** ** What one log adds to the arrays *)

Lemma Locals_app_empty ls : Locals.app ls Locals.empty = ls.
Proof. destruct ls; unfold Locals.app; simpl. by rewrite !app_nil_r. Qed.

Lemma Locals_app_empty_l ls : Locals.app Locals.empty ls = ls.
Proof. by destruct ls. Qed.

Lemma Locals_app_assoc a b c :
  Locals.app (Locals.app a b) c = Locals.app a (Locals.app b c).
Proof. unfold Locals.app; simpl. by rewrite !app_assoc. Qed.

Ltac run_step :=
  match goal with
  | |- context [match ?o with Ok _ => _ | Thrown _ => _ end] =>
      let E := fresh "E" in destruct o eqn:E; simpl
  end.

(** The body only appends: on any arrays it gives the outcome it gives on
    empty ones, and what it pushes there is appended. *)
Lemma processLog_app log ls :
  processLog log ls = ((contribution log).1, Locals.app ls (contribution log).2).
Proof.
  unfold contribution, processLog, dispatch, bind, lift, ret.
  rewrite getEventTopic_Transfer, getEventTopic_ApprovalForAll.
  destruct (parseEvent log) as [bp|e]; [|by rewrite Locals_app_empty].
  destruct ls as [la lt lm].
  repeat case_decide.
  all: repeat run_step.
  all: unfold Locals.app, Locals.empty, Locals.push_makerInfos, modify; simpl.
  all: by rewrite <- ?app_assoc, ?app_nil_r.
Qed.

Lemma contribution_inv log : Contributes log (contribution log).
Proof.
  unfold contribution, processLog, dispatch, bind, lift, ret.
  rewrite getEventTopic_Transfer, getEventTopic_ApprovalForAll.
  destruct (parseEvent log) as [bp|e] eqn:Ebp; [|constructor].
  repeat case_decide.
  all: repeat (run_step; [|constructor]).
  all: try (econstructor; by eauto).
Qed.

Lemma contribution_thrown log e :
  (contribution log).1 = Thrown e -> (contribution log).2 = Locals.empty.
Proof.
  destruct (contribution_inv log); simpl; by try discriminate.
Qed.

(** One turn of the loop: a log that parses adds its contribution; one
    that throws adds a logger entry and nothing else. Nothing escapes the
    [catch]. *)
Lemma loopBody_run log ls w :
  loopBody log (ls, w) =
  (Ok tt,
   match (contribution log).1 with
   | Ok _ => (Locals.app ls (contribution log).2, w)
   | Thrown e =>
       (ls, World.set_logger
              (fun l => l ++ [LogEntry.mk "erc721_callback" log e]) w)
   end).
Proof.
  unfold loopBody, tryCatch, inLocals, inWorld; simpl.
  rewrite processLog_app.
  pose proof (contribution_thrown log) as Hthrown.
  destruct (contribution log) as [[[]|e] c]; simpl in *; [done|].
  by rewrite (Hthrown e eq_refl), Locals_app_empty.
Qed.

Lemma set_logger_nil w : World.set_logger (fun l => l ++ []) w = w.
Proof. destruct w; unfold World.set_logger; simpl. by rewrite app_nil_r. Qed.

Lemma set_logger_app w a b :
  World.set_logger (fun l => l ++ b) (World.set_logger (fun l => l ++ a) w)
  = World.set_logger (fun l => l ++ (a ++ b)) w.
Proof. unfold World.set_logger; simpl. by rewrite app_assoc. Qed.

Lemma forOf_loopBody logs : forall ls w,
  forOf logs loopBody (ls, w) =
  (Ok tt, (Locals.app ls (decoded logs),
           World.set_logger (fun l => l ++ failures logs) w)).
Proof.
  induction logs as [|log logs IH]; intros ls w; simpl.
  - by rewrite Locals_app_empty, set_logger_nil.
  - unfold bind. rewrite loopBody_run.
    pose proof (contribution_thrown log) as Hthrown.
    destruct (contribution log) as [[[]|e] c]; simpl in *; rewrite IH.
    + by rewrite Locals_app_assoc.
    + by rewrite (Hthrown e eq_refl), Locals_app_empty_l, set_logger_app.
Qed.

Lemma decodeLogs_decoded logs w : decodeLogs logs w = decoded logs.
Proof.
  unfold decodeLogs. by rewrite forOf_loopBody, Locals_app_empty_l.
Qed.

(** The whole call, in closed form. *)
Lemma syncCallback_run address logs backfill w :
  ContractInfo.syncCallback (getContractInfo address) logs backfill w =
  (Ok tt,
   World.mk
     (add (Locals.approvalEvents (decoded logs)) (World.nft_approval_events w))
     (add (Locals.transferEvents (decoded logs)) (World.nft_transfer_events w))
     (if notBackfill backfill && Config.acceptOrders (World.config w)
      then World.ordersUpdateByMakerQueue w ++ [Locals.makerInfos (decoded logs)]
      else World.ordersUpdateByMakerQueue w)
     (World.logger w ++ failures logs)
     (World.config w)).
Proof.
  simpl. unfold syncCallbackBody, bind.
  rewrite forOf_loopBody, Locals_app_empty_l. simpl.
  by destruct (notBackfill backfill && Config.acceptOrders (World.config w)).
Qed.

(** ** The callbacks of the adapter *)

(** C1: for every list of logs, [syncCallback] calls the maker-update
    enqueue, once and with the accumulated [MakerInfo] entries, if and only
    if the backfill flag is not true and [config.acceptOrders] is on; with
    [backfill = true] the queue is never called, whatever the logs decode
    to. *)
Theorem syncCallback_enqueue_iff address logs backfill w :
  let sync := ContractInfo.syncCallback (getContractInfo address) logs in
  (sync backfill w).1 = Ok tt ∧
  World.ordersUpdateByMakerQueue (sync backfill w).2 =
    (if notBackfill backfill && Config.acceptOrders (World.config w)
     then World.ordersUpdateByMakerQueue w ++
            [Locals.makerInfos (decodeLogs logs w)]
     else World.ordersUpdateByMakerQueue w) ∧
  (length (World.ordersUpdateByMakerQueue (sync backfill w).2) =
     Datatypes.S (length (World.ordersUpdateByMakerQueue w))
   ↔ backfill ≠ Some true ∧ Config.acceptOrders (World.config w) = true) ∧
  World.ordersUpdateByMakerQueue (sync (Some true) w).2 =
    World.ordersUpdateByMakerQueue w.
Proof.
  intros sync. subst sync. rewrite !syncCallback_run, decodeLogs_decoded.
  cbn [fst snd World.ordersUpdateByMakerQueue].
  split; [done|]. split; [done|]. split; [|done].
  destruct backfill as [[]|], (Config.acceptOrders (World.config w)); simpl;
    rewrite ?length_app; simpl; split.
  all: try (intros Hlen; exfalso; lia).
  all: try (intros [Hb Ha]; congruence).
  all: try (intros _; split; congruence).
  all: intros _; lia.
Qed.

(** C8: the filter returned by [getContractInfo] is a log filter whose
    address list is exactly the list passed in (the empty list when none is
    passed) and which sets no topic selector. *)
Theorem getContractInfo_filter (address : list string) :
  Filter.address (ContractInfo.filter (getContractInfo (Some address)))
    = address ∧
  Filter.topics (ContractInfo.filter (getContractInfo (Some address)))
    = None ∧
  ContractInfo.filter (getContractInfo None) = Filter.mk [] None.
Proof. repeat split. Qed.

(** C9: if any step of processing a log throws (base-parameter extraction,
    ABI parse including the fallback, argument extraction), the log leaves
    the three arrays exactly as they were: every throwing step precedes the
    first push. The [catch] then records one logger entry and the loop goes
    on. *)
Theorem failed_log_pushes_nothing log ls e ls' :
  processLog log ls = (Thrown e, ls') ->
  ls' = ls ∧
  (contribution log).2 = Locals.empty ∧
  forall w,
    loopBody log (ls, w) =
    (Ok tt,
     (ls, World.set_logger
            (fun l => l ++ [LogEntry.mk "erc721_callback" log e]) w)).
Proof.
  rewrite processLog_app. intros Hrun.
  injection Hrun as Hthrown Hls.
  pose proof (contribution_thrown log e Hthrown) as Hempty.
  rewrite Hempty, Locals_app_empty in Hls.
  repeat split; [done..|].
  intros w. by rewrite loopBody_run, Hthrown.
Qed.

Lemma failed_log_pushes_nothing_witness :
  (processLog Sample.pendingTokenApproval Locals.empty
     = (Thrown MalformedLogError, Locals.empty) ∧
   (contribution Sample.pendingTokenApproval).2 = Locals.empty) ∧
  (processLog Sample.truncatedTransfer Locals.empty
     = (Thrown BUFFER_OVERRUN, Locals.empty) ∧
   (contribution Sample.truncatedTransfer).2 = Locals.empty) ∧
  (processLog Sample.dirtyTransfer Locals.empty
     = (Thrown INVALID_ARGUMENT, Locals.empty) ∧
   (contribution Sample.dirtyTransfer).2 = Locals.empty).
Proof.
  assert (Hbase : processLog Sample.pendingTokenApproval Locals.empty
                  = (Thrown MalformedLogError, Locals.empty))
    by (vm_compute; reflexivity).
  assert (Hparse : processLog Sample.truncatedTransfer Locals.empty
                   = (Thrown BUFFER_OVERRUN, Locals.empty))
    by (vm_compute; reflexivity).
  assert (Hargs : processLog Sample.dirtyTransfer Locals.empty
                  = (Thrown INVALID_ARGUMENT, Locals.empty))
    by (vm_compute; reflexivity).
  split; [|split].
  - split; [exact Hbase|].
    exact (proj1 (proj2 (failed_log_pushes_nothing _ _ _ _ Hbase))).
  - split; [exact Hparse|].
    exact (proj1 (proj2 (failed_log_pushes_nothing _ _ _ _ Hparse))).
  - split; [exact Hargs|].
    exact (proj1 (proj2 (failed_log_pushes_nothing _ _ _ _ Hargs))).
Defined.

(** C2: a successfully decoded [Transfer] log adds one transfer event and
    exactly two [MakerInfo] entries, the first with the sender as maker and
    the second with the receiver, both with side [sell]; a successfully
    decoded [ApprovalForAll] log adds one approval event and exactly one
    [MakerInfo] entry, with the owner as maker, carrying [operator],
    [approved] and [checkApproval: true]. *)
Theorem fan_out_cardinality log ls ls' :
  processLog log ls = (Ok tt, ls') ->
  (Log.topics log !! 0%nat = Some TransferTopic ->
   exists ev,
     Locals.transferEvents ls' = Locals.transferEvents ls ++ [ev] ∧
     Locals.approvalEvents ls' = Locals.approvalEvents ls ∧
     Locals.makerInfos ls' = Locals.makerInfos ls ++
       [MakerInfo.mk (contextOf (NftTransferEvent.baseParams ev)) sell
          (NftTransferEvent.from ev)
          (BaseEventParams.address (NftTransferEvent.baseParams ev))
          (Some (NftTransferEvent.tokenId ev)) None None None;
        MakerInfo.mk (contextOf (NftTransferEvent.baseParams ev)) sell
          (NftTransferEvent.to ev)
          (BaseEventParams.address (NftTransferEvent.baseParams ev))
          (Some (NftTransferEvent.tokenId ev)) None None None]) ∧
  (Log.topics log !! 0%nat = Some ApprovalForAllTopic ->
   exists ev,
     Locals.approvalEvents ls' = Locals.approvalEvents ls ++ [ev] ∧
     Locals.transferEvents ls' = Locals.transferEvents ls ∧
     Locals.makerInfos ls' = Locals.makerInfos ls ++
       [MakerInfo.mk (contextOf (NftApprovalEvent.baseParams ev)) sell
          (NftApprovalEvent.owner ev)
          (BaseEventParams.address (NftApprovalEvent.baseParams ev))
          None (Some (NftApprovalEvent.operator ev))
          (Some (NftApprovalEvent.approved ev)) (Some true)]).
Proof.
  rewrite processLog_app. intros Hrun.
  pose proof (contribution_inv log) as Hc.
  destruct (contribution log) as [o c]. simpl in Hrun.
  injection Hrun as -> <-.
  inversion Hc as [|bp Hbp HT HA|bp pl from to tokenId Hbp HT
                   |bp pl owner operator approved Hbp HT HA]; subst; simpl.
  - split; intros Htopic; congruence.
  - split; intros Htopic.
    + eexists. simpl. by rewrite app_nil_r.
    + rewrite HT in Htopic. injection Htopic as Heq.
      by destruct Transfer_ne_ApprovalForAll.
  - split; intros Htopic; [congruence|].
    eexists. simpl. by rewrite app_nil_r.
Qed.

Lemma fan_out_cardinality_witness :
  (processLog Sample.standardTransfer Locals.empty).1 = Ok tt ∧
  length (Locals.makerInfos
            (processLog Sample.standardTransfer Locals.empty).2) = 2%nat ∧
  (processLog Sample.approvalForAll Locals.empty).1 = Ok tt ∧
  length (Locals.makerInfos
            (processLog Sample.approvalForAll Locals.empty).2) = 1%nat.
Proof.
  assert (Ht : processLog Sample.standardTransfer Locals.empty
               = (Ok tt, (processLog Sample.standardTransfer Locals.empty).2))
    by (vm_compute; reflexivity).
  assert (Ha : processLog Sample.approvalForAll Locals.empty
               = (Ok tt, (processLog Sample.approvalForAll Locals.empty).2))
    by (vm_compute; reflexivity).
  split; [vm_compute; reflexivity|]. split.
  - destruct (proj1 (fan_out_cardinality _ _ _ Ht) eq_refl)
      as (ev & _ & _ & Hm).
    rewrite Hm. reflexivity.
  - split; [vm_compute; reflexivity|].
    destruct (proj2 (fan_out_cardinality _ _ _ Ha) eq_refl)
      as (ev & _ & _ & Hm).
    rewrite Hm. reflexivity.
Defined.

(** The scenario of the specification: an [ApprovalForAll] log with
    owner 0xaaa..., operator 0xbbb... and [approved = true]. *)
Example approvalForAll_scenario :
  processLog Sample.approvalForAll Locals.empty =
  (Ok tt,
   Locals.mk
     [NftApprovalEvent.mk
        "0xaaaaaaaaaaaaaaaaaaaaaaaaaaaaaaaaaaaaaaaa"
        "0xbbbbbbbbbbbbbbbbbbbbbbbbbbbbbbbbbbbbbbbb" true
        (BaseEventParams.mk "0x8d04a8c79ceb0889bdd12acdf3fa9d207ed3ff63"
           14000000 "0xb10c" "0x7a11" 3 2 1643809164)]
     []
     [MakerInfo.mk "0x7a11-2" sell
        "0xaaaaaaaaaaaaaaaaaaaaaaaaaaaaaaaaaaaaaaaa"
        "0x8d04a8c79ceb0889bdd12acdf3fa9d207ed3ff63"
        None (Some "0xbbbbbbbbbbbbbbbbbbbbbbbbbbbbbbbbbbbbbbbb")
        (Some true) (Some true)]).
Proof. vm_compute. reflexivity. Qed.

Lemma decoded_transferEvents_amount logs :
  Forall (fun ev => NftTransferEvent.amount ev = "1")
    (Locals.transferEvents (decoded logs)).
Proof.
  induction logs as [|log logs IH]; simpl; [constructor|].
  apply Forall_app. split; [|exact IH].
  destruct (contribution_inv log); simpl; repeat constructor.
Qed.

(** C7: every transfer event the adapter decodes, from either [Transfer]
    signature, has [amount] equal to the string "1". *)
Theorem transfer_amount_is_one logs w :
  Forall (fun ev => NftTransferEvent.amount ev = "1")
    (Locals.transferEvents (decodeLogs logs w)).
Proof.
  rewrite decodeLogs_decoded. apply decoded_transferEvents_amount.
Qed.

(** ** The event store *)

Section EventStoreFacts.
Context {R : Type} {row : Row R}.
Implicit Types (table : list R) (e : R) (k : PrimaryKey).

Lemma insertRow_stored table e :
  primaryKey e ∈ primaryKey <$> table -> insertRow table e = table.
Proof. intros Hin. unfold insertRow. by rewrite decide_True. Qed.

Lemma insertRow_key table e :
  primaryKey e ∈ primaryKey <$> insertRow table e.
Proof.
  unfold insertRow. case_decide as Hin; [done|].
  rewrite fmap_app. apply elem_of_app. right. by apply list_elem_of_singleton.
Qed.

Lemma insertRow_keeps table e k :
  k ∈ primaryKey <$> table -> k ∈ primaryKey <$> insertRow table e.
Proof.
  intros Hk. unfold insertRow. case_decide; [done|].
  rewrite fmap_app. apply elem_of_app. by left.
Qed.

Lemma insertRow_pkUnique table e :
  pkUnique table -> pkUnique (insertRow table e).
Proof.
  unfold pkUnique, insertRow. intros Hnd. case_decide as Hin; [done|].
  rewrite fmap_app. apply NoDup_app. repeat split; [done| |].
  - intros k Hk Hk'. apply list_elem_of_singleton in Hk'. by subst.
  - apply NoDup_singleton.
Qed.

Lemma add_pkUnique events : forall table,
  pkUnique table -> pkUnique (add events table).
Proof.
  induction events as [|e events IH]; intros table Hnd; simpl; [done|].
  apply IH. by apply insertRow_pkUnique.
Qed.

Lemma add_keeps events : forall table k,
  k ∈ primaryKey <$> table -> k ∈ primaryKey <$> add events table.
Proof.
  induction events as [|e events IH]; intros table k Hk; simpl; [done|].
  apply IH. by apply insertRow_keeps.
Qed.

(** Whatever is handed to [add] is stored under its key afterwards. *)
Lemma add_stores events : forall table,
  Forall (fun e => primaryKey e ∈ primaryKey <$> add events table) events.
Proof.
  induction events as [|e events IH]; intros table; simpl; constructor.
  - apply add_keeps, insertRow_key.
  - apply IH.
Qed.

Lemma add_single_idempotent table e :
  add [e] (add [e] table) = add [e] table.
Proof. simpl. apply insertRow_stored, insertRow_key. Qed.

Lemma rowsWithKey_absent table k :
  k ∉ primaryKey <$> table -> rowsWithKey k table = [].
Proof.
  unfold rowsWithKey. induction table as [|r table IH]; intros Hk; [done|].
  rewrite fmap_cons in Hk. apply not_elem_of_cons in Hk as [Hne Hk].
  rewrite filter_cons_False by congruence. by apply IH.
Qed.

Lemma rowsWithKey_unique table k :
  pkUnique table -> k ∈ primaryKey <$> table ->
  length (rowsWithKey k table) = 1%nat.
Proof.
  unfold pkUnique, rowsWithKey.
  induction table as [|r table IH]; intros Hnd Hk.
  - by apply elem_of_nil in Hk.
  - rewrite fmap_cons in Hnd, Hk. apply NoDup_cons in Hnd as [Hr Hnd].
    destruct (decide (primaryKey r = k)) as [<-|Hne].
    + rewrite filter_cons_True by done. simpl.
      pose proof (rowsWithKey_absent table (primaryKey r) Hr) as Habsent.
      unfold rowsWithKey in Habsent. by rewrite Habsent.
    + rewrite filter_cons_False by done.
      apply IH; [done|]. apply elem_of_cons in Hk as [Hk|Hk]; congruence.
Qed.

Lemma removeByBlockHash_gone blockHash table :
  Forall (fun r => blockHashOf r ≠ blockHash)
    (removeByBlockHash blockHash table).
Proof.
  apply Forall_forall. intros r Hr.
  by apply list_elem_of_filter in Hr as [Hne _].
Qed.

Lemma removeByBlockHash_idempotent blockHash table :
  removeByBlockHash blockHash (removeByBlockHash blockHash table)
  = removeByBlockHash blockHash table.
Proof.
  unfold removeByBlockHash.
  induction table as [|r table IH]; [done|].
  destruct (decide (blockHashOf r ≠ blockHash)) as [Hne|Heq].
  - rewrite (filter_cons_True _ r table Hne).
    rewrite (filter_cons_True _ r _ Hne). by rewrite IH.
  - by rewrite (filter_cons_False _ r table Heq).
Qed.

Lemma removeByBlockHash_others blockHash table r :
  blockHashOf r ≠ blockHash ->
  r ∈ removeByBlockHash blockHash table ↔ r ∈ table.
Proof. intros Hne. unfold removeByBlockHash. rewrite list_elem_of_filter. tauto. Qed.

(** C5: every event table is keyed by the primary key
    [(block_hash, tx_hash, log_index)] -- [add] keeps the key unique, as
    the [cancel_events_pk] constraint demands -- so adding the same event
    twice leaves exactly one stored row for its key, and the second [add]
    changes nothing. *)
Theorem add_twice_one_row table e :
  pkUnique table ->
  length (rowsWithKey (primaryKey e) (add [e] (add [e] table))) = 1%nat ∧
  add [e] (add [e] table) = add [e] table ∧
  forall events, pkUnique (add events table).
Proof.
  intros Hnd. rewrite add_single_idempotent.
  split; [|split; [done|]].
  - apply rowsWithKey_unique; [by apply add_pkUnique|].
    simpl. apply insertRow_key.
  - intros events. by apply add_pkUnique.
Qed.

End EventStoreFacts.

Lemma add_twice_one_row_witness :
  pkUnique (@nil (cancel_events.row string)) ∧
  length (rowsWithKey (cancel_events.cancel_events_pk Sample.cancel)
            (add [Sample.cancel] (add [Sample.cancel] []))) = 1%nat.
Proof.
  assert (Hnd : pkUnique (@nil (cancel_events.row string))) by constructor.
  split; [exact Hnd|].
  exact (proj1 (add_twice_one_row [] Sample.cancel Hnd)).
Defined.

(** C6: [fixCallback(blockHash)] removes every NFT approval event and
    every NFT transfer event stored under that block hash, keeps the rows
    of every other block, and a second call for the same hash leaves the
    store as the first call left it. *)
Theorem fixCallback_removes_and_is_idempotent address blockHash w :
  let fixCallback := ContractInfo.fixCallback (getContractInfo address) in
  (fixCallback blockHash w).1 = Ok tt ∧
  Forall (fun ev =>
            BaseEventParams.blockHash (NftApprovalEvent.baseParams ev)
            ≠ blockHash)
    (World.nft_approval_events (fixCallback blockHash w).2) ∧
  Forall (fun ev =>
            BaseEventParams.blockHash (NftTransferEvent.baseParams ev)
            ≠ blockHash)
    (World.nft_transfer_events (fixCallback blockHash w).2) ∧
  (forall ev,
     BaseEventParams.blockHash (NftApprovalEvent.baseParams ev) ≠ blockHash ->
     ev ∈ World.nft_approval_events (fixCallback blockHash w).2
     ↔ ev ∈ World.nft_approval_events w) ∧
  (forall ev,
     BaseEventParams.blockHash (NftTransferEvent.baseParams ev) ≠ blockHash ->
     ev ∈ World.nft_transfer_events (fixCallback blockHash w).2
     ↔ ev ∈ World.nft_transfer_events w) ∧
  fixCallback blockHash (fixCallback blockHash w).2 = fixCallback blockHash w.
Proof.
  intros fixCallback. subst fixCallback. simpl.
  unfold bind, removeNftApprovalEvents, removeNftTransferEvents, modify.
  simpl. split; [done|].
  split; [exact (removeByBlockHash_gone (row := NftApprovalEvent_row) _ _)|].
  split; [exact (removeByBlockHash_gone (row := NftTransferEvent_row) _ _)|].
  split; [exact (removeByBlockHash_others (row := NftApprovalEvent_row) _ _)|].
  split; [exact (removeByBlockHash_others (row := NftTransferEvent_row) _ _)|].
  unfold World.set_nft_transfer_events, World.set_nft_approval_events; simpl.
  by rewrite !removeByBlockHash_idempotent.
Qed.

(** ** Decoding a [Transfer] log through either table *)

Lemma parseLog_abi_two_topics log from to :
  Log.topics log = [TransferTopic; from; to] ->
  parseLog abi log = Thrown BUFFER_OVERRUN.
Proof.
  intros Htopics. unfold parseLog. rewrite Htopics. reflexivity.
Qed.

Lemma parseLog_abi_three_topics log from to tokenId :
  Log.topics log = [TransferTopic; from; to; tokenId] ->
  exists parsedLog,
    parseLog abi log = Ok parsedLog ∧
    LogDescription.args parsedLog = transferArgs from to tokenId.
Proof.
  intros Htopics. unfold parseLog. rewrite Htopics.
  eexists. split; reflexivity.
Qed.

Lemma parseLog_nonStandardAbi_two_topics log from to tokenId :
  Log.topics log = [TransferTopic; from; to] ->
  dataReader (Log.data log) 0%nat = Ok tokenId ->
  exists parsedLog,
    parseLog nonStandardAbi log = Ok parsedLog ∧
    LogDescription.args parsedLog = transferArgs from to tokenId.
Proof.
  intros Htopics Hdata. unfold parseLog. rewrite Htopics.
  cbv beta iota.
  change ([TransferTopic; from; to] !! 0%nat) with (Some TransferTopic).
  cbv beta iota.
  change (getEventByTopic nonStandardAbi TransferTopic)
    with (Ok (EventFragment.mk "Transfer" [
                ParamType.mk address_t true "from";
                ParamType.mk address_t true "to";
                ParamType.mk uint256_t false "tokenId"])).
  cbn [mbind Outcome_bind]. unfold decodeEventLog.
  rewrite decide_True by reflexivity.
  cbn -[dataReader coderDecode Z.modulo Z.pow].
  rewrite Hdata. eexists. split; reflexivity.
Qed.

Lemma getArg_three (v1 v2 v3 : Outcome Value) :
  let args := [("from", v1); ("to", v2); ("tokenId", v3)] in
  getArg args "from" = (v ← v1; mret (Some v)) ∧
  getArg args "to" = (v ← v2; mret (Some v)) ∧
  getArg args "tokenId" = (v ← v3; mret (Some v)).
Proof. repeat split; by destruct v1, v2, v3. Qed.

(** [processLog] on a [Transfer] log whose arguments decode to
    [transferArgs from to tokenId], through whichever table. *)
Lemma processLog_transferArgs log parsedLog from to tokenId ls :
  Log.topics log !! 0%nat = Some TransferTopic ->
  parseTransferLog log = Ok parsedLog ->
  LogDescription.args parsedLog = transferArgs from to tokenId ->
  processLog log ls =
  match parseEvent log with
  | Thrown e => (Thrown e, ls)
  | Ok baseParams =>
      if decide (from < 2 ^ 160 ∧ to < 2 ^ 160) then
        (Ok tt,
         Locals.mk (Locals.approvalEvents ls)
           (Locals.transferEvents ls ++
              [NftTransferEvent.mk (pretty (tokenId mod 2 ^ 256))
                 (addressToLowerCase from) (addressToLowerCase to) "1"
                 baseParams])
           (Locals.makerInfos ls ++
              [MakerInfo.mk (contextOf baseParams) sell
                 (addressToLowerCase from)
                 (BaseEventParams.address baseParams)
                 (Some (pretty (tokenId mod 2 ^ 256))) None None None;
               MakerInfo.mk (contextOf baseParams) sell
                 (addressToLowerCase to)
                 (BaseEventParams.address baseParams)
                 (Some (pretty (tokenId mod 2 ^ 256))) None None None]))
      else (Thrown INVALID_ARGUMENT, ls)
  end.
Proof.
  intros Htopic Hparse Hargs.
  unfold processLog, dispatch, bind, lift.
  rewrite getEventTopic_Transfer.
  destruct (parseEvent log) as [bp|e]; [|done].
  rewrite decide_True by done. rewrite Hparse, Hargs.
  unfold transferArgs.
  destruct (getArg_three (coderDecode address_t from)
              (coderDecode address_t to)
              (Ok (VBigNumber (tokenId mod 2 ^ 256)))) as (-> & -> & ->).
  unfold Locals.push_makerInfos, modify, coderDecode.
  destruct (decide (from < 2 ^ 160)) as [Hf|Hf];
    destruct (decide (to < 2 ^ 160)) as [Ht|Ht].
  - rewrite decide_True by done.
    cbn -[Z.modulo Z.pow pretty addressToLowerCase].
    by rewrite <- ?app_assoc.
  - rewrite decide_False by tauto. reflexivity.
  - rewrite decide_False by tauto. reflexivity.
  - rewrite decide_False by tauto. reflexivity.
Qed.

Lemma bigEndian_bounds bs : forall acc,
  0 <= acc ->
  0 <= foldl (fun acc b => acc * 256 + Z.of_N (Byte.to_N b)) acc bs
    < (acc + 1) * 256 ^ Z.of_nat (length bs).
Proof.
  induction bs as [|b bs IH]; intros acc Hacc; simpl length; simpl foldl.
  - change (256 ^ Z.of_nat 0) with 1. lia.
  - pose proof (Byte.to_N_bounded b) as Hb.
    assert (Hnext : 0 <= acc * 256 + Z.of_N (Byte.to_N b)) by lia.
    specialize (IH _ Hnext).
    rewrite Nat2Z.inj_succ, Z.pow_succ_r by lia.
    assert (0 < 256 ^ Z.of_nat (length bs)) by (apply Z.pow_pos_nonneg; lia).
    nia.
Qed.

Lemma dataReader_range data i w :
  dataReader data i = Ok w -> 0 <= w < 2 ^ 256.
Proof.
  unfold dataReader. generalize (take 32 (drop (32 * i) data)) as chunk.
  intros chunk. cbv zeta. case_decide as Hlen; [|done].
  intros Hw. injection Hw as <-.
  pose proof (bigEndian_bounds chunk 0 (Z.le_refl 0)) as Hb.
  unfold bigEndian. rewrite Hlen in Hb.
  change ((0 + 1) * 256 ^ Z.of_nat 32) with (2 ^ 256) in Hb. exact Hb.
Qed.

(** C4: for a log with the [Transfer] topic the primary table is tried
    first and the non-standard table only if that throws. A log that
    carries [tokenId] in its data instead of a fourth topic makes the
    primary table throw, decodes through the non-standard one, and yields
    the very transfer event (and [MakerInfo] entries) that the standard log
    with the same sender, receiver and token yields: [from], [to],
    [tokenId] and [amount = "1"]. *)
Theorem transfer_fallback_decode log :
  (forall parsedLog,
     parseLog abi log = Ok parsedLog -> parseTransferLog log = Ok parsedLog) ∧
  (forall e,
     parseLog abi log = Thrown e ->
     parseTransferLog log = parseLog nonStandardAbi log) ∧
  (forall from to tokenId,
     Log.topics log = [TransferTopic; from; to] ->
     dataReader (Log.data log) 0%nat = Ok tokenId ->
     parseLog abi log = Thrown BUFFER_OVERRUN ∧
     (exists parsedLog,
        parseTransferLog log = Ok parsedLog ∧
        parseLog nonStandardAbi log = Ok parsedLog) ∧
     (forall ls,
        processLog log ls =
        processLog (Log.set_topics [TransferTopic; from; to; tokenId] log) ls) ∧
     (forall baseParams ls,
        parseEvent log = Ok baseParams ->
        from < 2 ^ 160 -> to < 2 ^ 160 ->
        processLog log ls =
        (Ok tt,
         Locals.mk (Locals.approvalEvents ls)
           (Locals.transferEvents ls ++
              [NftTransferEvent.mk (pretty tokenId)
                 (addressToLowerCase from) (addressToLowerCase to) "1"
                 baseParams])
           (Locals.makerInfos ls ++
              [MakerInfo.mk (contextOf baseParams) sell
                 (addressToLowerCase from)
                 (BaseEventParams.address baseParams)
                 (Some (pretty tokenId)) None None None;
               MakerInfo.mk (contextOf baseParams) sell
                 (addressToLowerCase to)
                 (BaseEventParams.address baseParams)
                 (Some (pretty tokenId)) None None None])))).
Proof.
  split; [|split].
  - intros parsedLog Hprimary. unfold parseTransferLog. by rewrite Hprimary.
  - intros e Hprimary. unfold parseTransferLog. by rewrite Hprimary.
  - intros from to tokenId Htopics Hdata.
    pose proof (parseLog_abi_two_topics log from to Htopics) as Hprimary.
    destruct (parseLog_nonStandardAbi_two_topics log from to tokenId
                Htopics Hdata) as (parsedLog & Hfallback & Hargs).
    assert (Hparse : parseTransferLog log = Ok parsedLog).
    { unfold parseTransferLog. by rewrite Hprimary. }
    assert (Htopic : Log.topics log !! 0%nat = Some TransferTopic)
      by (by rewrite Htopics).
    pose proof (dataReader_range _ _ _ Hdata) as Hrange.
    split; [done|]. split; [by exists parsedLog|]. split.
    + intros ls.
      destruct (parseLog_abi_three_topics
                  (Log.set_topics [TransferTopic; from; to; tokenId] log)
                  from to tokenId eq_refl) as (parsedStd & Hstd & HargsStd).
      rewrite (processLog_transferArgs log parsedLog from to tokenId ls
                 Htopic Hparse Hargs).
      rewrite (processLog_transferArgs
                 (Log.set_topics [TransferTopic; from; to; tokenId] log)
                 parsedStd from to tokenId ls eq_refl); [done| |done].
      unfold parseTransferLog. by rewrite Hstd.
    + intros baseParams ls Hbp Hfrom Hto.
      rewrite (processLog_transferArgs log parsedLog from to tokenId ls
                 Htopic Hparse Hargs).
      rewrite Hbp, decide_True by done.
      by rewrite Z.mod_small by done.
Qed.

Lemma transfer_fallback_decode_witness :
  Log.topics Sample.nonStandardTransfer
    = [TransferTopic; Sample.alice; Sample.bob] ∧
  dataReader (Log.data Sample.nonStandardTransfer) 0%nat = Ok 7 ∧
  parseLog abi Sample.nonStandardTransfer = Thrown BUFFER_OVERRUN ∧
  forall ls,
    processLog Sample.nonStandardTransfer ls =
    processLog
      (Log.set_topics [TransferTopic; Sample.alice; Sample.bob; 7]
         Sample.nonStandardTransfer) ls.
Proof.
  assert (Htopics : Log.topics Sample.nonStandardTransfer
                    = [TransferTopic; Sample.alice; Sample.bob])
    by reflexivity.
  assert (Hdata : dataReader (Log.data Sample.nonStandardTransfer) 0%nat
                  = Ok 7) by (vm_compute; reflexivity).
  pose proof (proj2 (proj2 (transfer_fallback_decode
                              Sample.nonStandardTransfer))
                Sample.alice Sample.bob 7 Htopics Hdata)
    as (Hprimary & _ & Hsame & _).
  split; [exact Htopics|]. split; [exact Hdata|].
  split; [exact Hprimary|exact Hsame].
Defined.

(** ** Batches with a log that fails *)

Lemma eventCount_app a b :
  eventCount (Locals.app a b) = (eventCount a + eventCount b)%nat.
Proof. unfold eventCount, Locals.app; simpl. rewrite !length_app. lia. Qed.

Lemma contribution_eventCount log :
  isThrown (contribution log).1 = false ->
  eventCount (contribution log).2 =
  if decide (recognisedTopic log) then 1%nat else 0%nat.
Proof.
  intros Hok. unfold recognisedTopic.
  destruct (contribution_inv log) as [e|bp Hbp HT HA|bp pl ? ? ? Hbp HT
                                      |bp pl ? ? ? Hbp HT HA].
  - done.
  - rewrite decide_False by tauto. done.
  - rewrite decide_True by tauto. done.
  - rewrite decide_True by tauto. done.
Qed.

Lemma decoded_app l1 l2 :
  decoded (l1 ++ l2) = Locals.app (decoded l1) (decoded l2).
Proof.
  induction l1 as [|log l1 IH]; simpl.
  - by rewrite Locals_app_empty_l.
  - by rewrite IH, Locals_app_assoc.
Qed.

Lemma decoded_skips_thrown l1 bad l2 e :
  (contribution bad).1 = Thrown e ->
  decoded (l1 ++ bad :: l2) = decoded (l1 ++ l2).
Proof.
  intros Hbad. rewrite !decoded_app. simpl.
  by rewrite (contribution_thrown bad e Hbad), Locals_app_empty_l.
Qed.

Lemma decoded_eventCount logs :
  Forall (fun log => isThrown (contribution log).1 = false) logs ->
  eventCount (decoded logs) = length (filter recognisedTopic logs).
Proof.
  induction 1 as [|log logs Hok _ IH]; [done|].
  simpl decoded. rewrite eventCount_app, IH, (contribution_eventCount log Hok).
  rewrite filter_cons. by destruct (decide (recognisedTopic log)).
Qed.

Lemma filter_all {A} (P : A -> Prop) `{forall x, Decision (P x)} (l : list A) :
  Forall P l -> filter P l = l.
Proof.
  induction 1 as [|x l Hx _ IH]; [done|].
  by rewrite filter_cons_True, IH.
Qed.

Lemma failures_app l1 l2 : failures (l1 ++ l2) = failures l1 ++ failures l2.
Proof. unfold failures. apply flat_map_app. Qed.

Lemma failures_none logs :
  Forall (fun log => isThrown (contribution log).1 = false) logs ->
  failures logs = [].
Proof.
  induction 1 as [|log logs Hok _ IH]; [done|].
  unfold failures in *. simpl. rewrite IH.
  by destruct (contribution log).1.
Qed.

Lemma failures_one l1 bad l2 e :
  (contribution bad).1 = Thrown e ->
  Forall (fun log => isThrown (contribution log).1 = false) (l1 ++ l2) ->
  failures (l1 ++ bad :: l2) = [LogEntry.mk "erc721_callback" bad e].
Proof.
  intros Hbad Hok. apply Forall_app in Hok as [Hok1 Hok2].
  rewrite failures_app, (failures_none l1 Hok1).
  change (bad :: l2) with ([bad] ++ l2).
  rewrite failures_app, (failures_none l2 Hok2).
  unfold failures. simpl. by rewrite Hbad.
Qed.

(** C3, as stated, fails: in a batch of two logs of which exactly one is
    malformed, the other -- a well-formed per-token [Approval] log, which
    the address-only filter lets through -- yields no event, so nothing is
    persisted although N - 1 = 1. *)
Lemma one_bad_log_can_leave_fewer_events :
  isThrown (contribution Sample.tokenApproval).1 = false ∧
  isThrown (contribution Sample.truncatedTransfer).1 = true ∧
  World.nft_approval_events
    (ContractInfo.syncCallback (getContractInfo None)
       [Sample.tokenApproval; Sample.truncatedTransfer] None Sample.world).2
  = [] ∧
  World.nft_transfer_events
    (ContractInfo.syncCallback (getContractInfo None)
       [Sample.tokenApproval; Sample.truncatedTransfer] None Sample.world).2
  = [] ∧
  eventCount
    (decodeLogs [Sample.tokenApproval; Sample.truncatedTransfer] Sample.world)
  ≠ (length [Sample.tokenApproval; Sample.truncatedTransfer] - 1)%nat.
Proof. repeat split; by vm_compute. Qed.

(** C3, amended: in a batch of N logs of which exactly one throws, the
    call does not fail, logs exactly one failure (for that log), and hands
    to the store exactly the events of the batch without the bad log: one
    event for each remaining log whose [topics[0]] is the [Transfer] or
    [ApprovalForAll] topic -- N - 1 events when all remaining logs are
    such -- each of which is stored under its primary key afterwards. *)
Theorem one_bad_log_is_skipped address l1 bad l2 e backfill w :
  (contribution bad).1 = Thrown e ->
  Forall (fun log => isThrown (contribution log).1 = false) (l1 ++ l2) ->
  let logs := l1 ++ bad :: l2 in
  let run := ContractInfo.syncCallback (getContractInfo address) logs backfill w in
  let events := decodeLogs logs w in
  run.1 = Ok tt ∧
  World.logger run.2
    = World.logger w ++ [LogEntry.mk "erc721_callback" bad e] ∧
  events = decodeLogs (l1 ++ l2) w ∧
  eventCount events = length (filter recognisedTopic (l1 ++ l2)) ∧
  (Forall recognisedTopic (l1 ++ l2) ->
   eventCount events = (length logs - 1)%nat) ∧
  World.nft_approval_events run.2
    = add (Locals.approvalEvents events) (World.nft_approval_events w) ∧
  World.nft_transfer_events run.2
    = add (Locals.transferEvents events) (World.nft_transfer_events w) ∧
  Forall (fun ev =>
            primaryKey ev ∈ primaryKey <$> World.nft_approval_events run.2)
    (Locals.approvalEvents events) ∧
  Forall (fun ev =>
            primaryKey ev ∈ primaryKey <$> World.nft_transfer_events run.2)
    (Locals.transferEvents events).
Proof.
  intros Hbad Hok logs run events. subst logs run events.
  rewrite syncCallback_run, !decodeLogs_decoded.
  cbn [fst snd World.logger World.nft_approval_events
       World.nft_transfer_events].
  rewrite (failures_one l1 bad l2 e Hbad Hok).
  rewrite (decoded_skips_thrown l1 bad l2 e Hbad).
  pose proof (decoded_eventCount (l1 ++ l2) Hok) as Hcount.
  repeat split; try done.
  - intros Hrec. rewrite Hcount, (filter_all _ _ Hrec).
    rewrite !length_app. simpl. lia.
  - apply add_stores.
  - apply add_stores.
Qed.

Lemma one_bad_log_is_skipped_witness :
  (contribution Sample.truncatedTransfer).1 = Thrown BUFFER_OVERRUN ∧
  Forall (fun log => isThrown (contribution log).1 = false)
    ([Sample.standardTransfer]
       ++ [Sample.approvalForAll; Sample.nonStandardTransfer]) ∧
  World.logger
    (ContractInfo.syncCallback (getContractInfo None)
       ([Sample.standardTransfer] ++ Sample.truncatedTransfer
          :: [Sample.approvalForAll; Sample.nonStandardTransfer])
       None Sample.world).2
  = [LogEntry.mk "erc721_callback" Sample.truncatedTransfer BUFFER_OVERRUN] ∧
  eventCount
    (decodeLogs
       ([Sample.standardTransfer] ++ Sample.truncatedTransfer
          :: [Sample.approvalForAll; Sample.nonStandardTransfer])
       Sample.world) = 3%nat.
Proof.
  assert (Hbad : (contribution Sample.truncatedTransfer).1
                 = Thrown BUFFER_OVERRUN) by (vm_compute; reflexivity).
  assert (Hok : Forall (fun log => isThrown (contribution log).1 = false)
                  ([Sample.standardTransfer]
                     ++ [Sample.approvalForAll; Sample.nonStandardTransfer])).
  { repeat (constructor; [vm_compute; reflexivity|]). constructor. }
  assert (Hrec : Forall recognisedTopic
                   ([Sample.standardTransfer]
                      ++ [Sample.approvalForAll; Sample.nonStandardTransfer])).
  { repeat (constructor; [vm_compute; tauto|]). constructor. }
  pose proof (one_bad_log_is_skipped None [Sample.standardTransfer]
                Sample.truncatedTransfer
                [Sample.approvalForAll; Sample.nonStandardTransfer]
                BUFFER_OVERRUN None Sample.world Hbad Hok)
    as (_ & Hlog & _ & _ & Hcount & _).
  split; [exact Hbad|]. split; [exact Hok|].
  split; [exact Hlog|exact (Hcount Hrec)].
Defined.

(** C10: a log whose [topics[0]] is neither the [Transfer] nor the
    [ApprovalForAll] topic is skipped silently. Such a log, carrying the
    block hash, transaction hash and log index that every [Log] has,
    passes through the loop body without a throw and without pushing an
    event or a [MakerInfo], and the call gives the same result and leaves
    the same tables, queue and logger with the log in the batch as
    without it. *)
Theorem unrecognised_topic_skipped log :
  is_Some (Log.blockHash log) ->
  is_Some (Log.transactionHash log) ->
  is_Some (Log.logIndex log) ->
  Log.topics log !! 0%nat ≠ Some TransferTopic ->
  Log.topics log !! 0%nat ≠ Some ApprovalForAllTopic ->
  contribution log = (Ok tt, Locals.empty) ∧
  (forall ls w, loopBody log (ls, w) = (Ok tt, (ls, w))) ∧
  (forall address l1 l2 backfill w,
     ContractInfo.syncCallback (getContractInfo address)
       (l1 ++ log :: l2) backfill w
     = ContractInfo.syncCallback (getContractInfo address)
         (l1 ++ l2) backfill w).
Proof.
  intros [blockHash HblockHash] [txHash HtxHash] [logIndex HlogIndex] HT HA.
  assert (Hc : contribution log = (Ok tt, Locals.empty)).
  { unfold contribution, processLog, dispatch, parseEvent, bind, lift, ret.
    rewrite HblockHash, HtxHash, HlogIndex.
    rewrite getEventTopic_Transfer, getEventTopic_ApprovalForAll.
    by repeat case_decide. }
  split; [done|]. split.
  - intros ls w. by rewrite loopBody_run, Hc, Locals_app_empty.
  - intros address l1 l2 backfill w. rewrite !syncCallback_run.
    assert (Hdecoded : decoded (l1 ++ log :: l2) = decoded (l1 ++ l2)).
    { rewrite !decoded_app. simpl. by rewrite Hc, Locals_app_empty_l. }
    assert (Hfailures : failures (l1 ++ log :: l2) = failures (l1 ++ l2)).
    { rewrite !failures_app. unfold failures at 2. simpl. by rewrite Hc. }
    by rewrite Hdecoded, Hfailures.
Qed.

Lemma unrecognised_topic_skipped_witness :
  Log.blockHash Sample.tokenApproval = Some "0xb10c" ∧
  Log.transactionHash Sample.tokenApproval = Some "0x7a11" ∧
  Log.logIndex Sample.tokenApproval = Some 4 ∧
  contribution Sample.tokenApproval = (Ok tt, Locals.empty) ∧
  ContractInfo.syncCallback (getContractInfo None)
    [Sample.standardTransfer; Sample.tokenApproval] None Sample.world
  = ContractInfo.syncCallback (getContractInfo None)
      [Sample.standardTransfer] None Sample.world.
Proof.
  split; [reflexivity|]. split; [reflexivity|]. split; [reflexivity|].
  assert (Htransfer : Log.topics Sample.tokenApproval !! 0%nat
                      ≠ Some TransferTopic) by (vm_compute; discriminate).
  assert (Happroval : Log.topics Sample.tokenApproval !! 0%nat
                      ≠ Some ApprovalForAllTopic) by (vm_compute; discriminate).
  pose proof (unrecognised_topic_skipped Sample.tokenApproval
                (ex_intro _ "0xb10c" eq_refl) (ex_intro _ "0x7a11" eq_refl)
                (ex_intro _ 4 eq_refl) Htransfer Happroval)
    as (Hskip & _ & Hbatch).
  split; [exact Hskip|].
  exact (Hbatch None [Sample.standardTransfer] [] None Sample.world).
Defined.

(** * Further properties *)

(** ** More on the event store *)

Section EventStoreComposition.
Context {R : Type} {row : Row R}.
Implicit Types (table : list R) (events : list R) (e : R).

Lemma add_app events1 events2 table :
  add (events1 ++ events2) table = add events2 (add events1 table).
Proof. unfold add. apply foldl_app. Qed.

Lemma add_known events : forall table,
  Forall (fun e => primaryKey e ∈ primaryKey <$> table) events ->
  add events table = table.
Proof.
  induction events as [|e events IH]; intros table Hin; [done|].
  apply Forall_cons in Hin as [He Hin]. simpl.
  rewrite (insertRow_stored table e He). by apply IH.
Qed.

Lemma add_idempotent events table :
  add events (add events table) = add events table.
Proof. apply add_known, add_stores. Qed.

Lemma insertRow_extends table e :
  exists more,
    insertRow table e = table ++ more ∧ Forall (fun r => r = e) more.
Proof.
  unfold insertRow. case_decide.
  - exists []. by rewrite app_nil_r.
  - exists [e]. split; [done|]. by repeat constructor.
Qed.

(** [add] only appends: the table it starts from is kept, row for row,
    at the front, and what follows are events it was given. *)
Lemma add_extends events : forall table,
  exists more,
    add events table = table ++ more ∧ Forall (fun r => r ∈ events) more.
Proof.
  induction events as [|e events IH]; intros table; simpl.
  - exists []. by rewrite app_nil_r.
  - destruct (insertRow_extends table e) as (m1 & -> & Hm1).
    destruct (IH (table ++ m1)) as (m2 & -> & Hm2).
    exists (m1 ++ m2). split; [by rewrite app_assoc|].
    apply Forall_app. split.
    + eapply Forall_impl; [exact Hm1|]. intros r ->. by left.
    + eapply Forall_impl; [exact Hm2|]. intros r Hr. by right.
Qed.

Lemma removeByBlockHash_app blockHash table1 table2 :
  removeByBlockHash blockHash (table1 ++ table2)
  = removeByBlockHash blockHash table1 ++ removeByBlockHash blockHash table2.
Proof. unfold removeByBlockHash. apply filter_app. Qed.

Lemma removeByBlockHash_all blockHash table :
  Forall (fun r => blockHashOf r = blockHash) table ->
  removeByBlockHash blockHash table = [].
Proof.
  unfold removeByBlockHash.
  induction 1 as [|r table Hr _ IH]; [done|].
  rewrite filter_cons_False by (intros Hne; by apply Hne). exact IH.
Qed.

Lemma removeByBlockHash_none blockHash table :
  Forall (fun r => blockHashOf r ≠ blockHash) table ->
  removeByBlockHash blockHash table = table.
Proof.
  unfold removeByBlockHash.
  induction 1 as [|r table Hr _ IH]; [done|].
  rewrite filter_cons_True by done. by rewrite IH.
Qed.

Lemma removeByBlockHash_add blockHash events table :
  Forall (fun e => blockHashOf e = blockHash) events ->
  removeByBlockHash blockHash (add events table)
  = removeByBlockHash blockHash table.
Proof.
  intros Hblock. destruct (add_extends events table) as (more & -> & Hmore).
  rewrite removeByBlockHash_app, (removeByBlockHash_all blockHash more).
  - by rewrite app_nil_r.
  - apply Forall_forall. intros r Hr.
    rewrite Forall_forall in Hmore, Hblock. by apply Hblock, Hmore.
Qed.

Lemma removeByBlockHash_comm blockHash1 blockHash2 table :
  removeByBlockHash blockHash1 (removeByBlockHash blockHash2 table)
  = removeByBlockHash blockHash2 (removeByBlockHash blockHash1 table).
Proof.
  unfold removeByBlockHash. rewrite !list_filter_filter.
  apply list_filter_iff. tauto.
Qed.

Lemma removeByBlockHash_pkUnique blockHash table :
  pkUnique table -> pkUnique (removeByBlockHash blockHash table).
Proof.
  unfold pkUnique, removeByBlockHash.
  induction table as [|r table IH]; [done|].
  rewrite fmap_cons, NoDup_cons. intros [Hr Hnd].
  rewrite filter_cons. case_decide; [|by apply IH].
  rewrite fmap_cons. apply NoDup_cons. split; [|by apply IH].
  intros Hin. apply Hr. apply list_elem_of_fmap in Hin as (r' & Hkey & Hin).
  apply list_elem_of_filter in Hin as [_ Hin].
  apply list_elem_of_fmap. by exists r'.
Qed.

End EventStoreComposition.

(** ** Batches, redelivery and rollback *)

Lemma parseEvent_fields log baseParams :
  parseEvent log = Ok baseParams ->
  Log.blockHash log = Some (BaseEventParams.blockHash baseParams) ∧
  Log.transactionHash log = Some (BaseEventParams.txHash baseParams) ∧
  Log.logIndex log = Some (BaseEventParams.logIndex baseParams) ∧
  Log.address log = BaseEventParams.address baseParams.
Proof.
  unfold parseEvent.
  destruct (Log.blockHash log), (Log.transactionHash log), (Log.logIndex log);
    try discriminate.
  by intros [= <-].
Qed.

(** Every decoded event carries the base parameters of a log of the batch
    with the matching topic. *)
Lemma decoded_provenance logs :
  Forall (fun ev => exists log,
            log ∈ logs ∧
            Log.topics log !! 0%nat = Some TransferTopic ∧
            parseEvent log = Ok (NftTransferEvent.baseParams ev))
    (Locals.transferEvents (decoded logs)) ∧
  Forall (fun ev => exists log,
            log ∈ logs ∧
            Log.topics log !! 0%nat = Some ApprovalForAllTopic ∧
            parseEvent log = Ok (NftApprovalEvent.baseParams ev))
    (Locals.approvalEvents (decoded logs)) ∧
  Forall (fun m => exists log baseParams,
            log ∈ logs ∧
            parseEvent log = Ok baseParams ∧
            MakerInfo.contract m = BaseEventParams.address baseParams ∧
            MakerInfo.context m = contextOf baseParams)
    (Locals.makerInfos (decoded logs)).
Proof.
  induction logs as [|log logs (IHt & IHa & IHm)]; [by repeat split|].
  simpl decoded. unfold Locals.app; simpl.
  assert (Hweaken : forall {A} (P : Log.t -> A -> Prop) (l : list A),
            Forall (fun x => exists l0, l0 ∈ logs ∧ P l0 x) l ->
            Forall (fun x => exists l0, l0 ∈ log :: logs ∧ P l0 x) l).
  { intros A P l Hl. eapply Forall_impl; [exact Hl|].
    intros x (l0 & Hin & HP). exists l0. split; [by right|done]. }
  rewrite !Forall_app.
  split; [|split]; (split; [|]).
  all: try (apply (Hweaken _ (fun l0 ev => _ ∧ _)); assumption).
  - destruct (contribution_inv log); simpl; repeat constructor.
    exists log. split; [by left|done].
  - destruct (contribution_inv log); simpl; repeat constructor.
    exists log. split; [by left|done].
  - destruct (contribution_inv log); simpl; repeat constructor.
    all: exists log; eexists; split; [by left|done].
  - eapply Forall_impl; [exact IHm|].
    intros m (l0 & bp & Hin & HP). exists l0, bp. split; [by right|done].
Qed.

(** X1: [syncCallback] returns normally for every batch. The logger
    gains one entry for each log whose processing throws, in the order of
    the batch, naming that log and the error thrown; and what is decoded
    is what the batch without those logs decodes to. *)
Theorem syncCallback_logs_every_failure address logs backfill w :
  let run := ContractInfo.syncCallback (getContractInfo address) logs backfill w in
  run.1 = Ok tt ∧
  (exists entries,
     World.logger run.2 = World.logger w ++ entries ∧
     LogEntry.log <$> entries
       = filter (fun log => isThrown (contribution log).1 = true) logs ∧
     Forall (fun entry =>
               LogEntry.component entry = "erc721_callback" ∧
               (contribution (LogEntry.log entry)).1
                 = Thrown (LogEntry.error entry)) entries) ∧
  decodeLogs logs w
    = decodeLogs
        (filter (fun log => isThrown (contribution log).1 = false) logs) w.
Proof.
  intros run. subst run. rewrite syncCallback_run, !decodeLogs_decoded.
  cbn [fst snd World.logger]. split; [done|]. split.
  - exists (failures logs). split; [done|].
    induction logs as [|log logs [IHlog IHall]]; [by split|].
    unfold failures in *. cbn [flat_map]. rewrite filter_cons.
    destruct (contribution log).1 as [[]|e] eqn:Hc.
    + rewrite decide_False by done. cbn [app]. by split.
    + rewrite decide_True by done. cbn [app]. rewrite fmap_cons, IHlog.
      split; [done|]. by constructor.
  - induction logs as [|log logs IH]; [done|].
    rewrite filter_cons. cbn [decoded foldr].
    destruct (contribution log).1 as [[]|e] eqn:Hc.
    + rewrite decide_True by done. cbn [decoded foldr].
      fold (decoded logs). by rewrite IH.
    + rewrite decide_False by done.
      by rewrite (contribution_thrown log e Hc), Locals_app_empty_l.
Qed.

Lemma decoded_makerInfos_shape logs :
  Forall (fun m =>
            MakerInfo.side m = sell ∧
            ((is_Some (MakerInfo.tokenId m) ∧ MakerInfo.operator m = None ∧
              MakerInfo.approved m = None ∧ MakerInfo.checkApproval m = None)
             ∨
             (MakerInfo.tokenId m = None ∧ is_Some (MakerInfo.operator m) ∧
              is_Some (MakerInfo.approved m) ∧
              MakerInfo.checkApproval m = Some true)))
    (Locals.makerInfos (decoded logs)) ∧
  length (Locals.makerInfos (decoded logs))
  = (2 * length (Locals.transferEvents (decoded logs))
     + length (Locals.approvalEvents (decoded logs)))%nat.
Proof.
  induction logs as [|log logs [IHshape IHcount]]; [by split|].
  simpl decoded. unfold Locals.app; simpl. rewrite !length_app, IHcount.
  split.
  - apply Forall_app. split; [|done].
    destruct (contribution_inv log); simpl; rewrite ?Forall_cons.
    all: repeat split; try done; try apply Forall_nil.
    all: first [left; by eauto | right; by eauto].
  - destruct (contribution_inv log); simpl; lia.
Qed.

(** X2: every [MakerInfo] the adapter derives has side [sell] -- none is
    ever tagged [buy] -- and is of one of two shapes: with a [tokenId] and
    nothing else (from a transfer), or with [operator], [approved] and
    [checkApproval: true] and no [tokenId] (from an approval). Their
    number is twice the number of transfer events plus the number of
    approval events. *)
Theorem makerInfos_shape_and_count logs w :
  Forall (fun m =>
            MakerInfo.side m = sell ∧
            ((is_Some (MakerInfo.tokenId m) ∧ MakerInfo.operator m = None ∧
              MakerInfo.approved m = None ∧ MakerInfo.checkApproval m = None)
             ∨
             (MakerInfo.tokenId m = None ∧ is_Some (MakerInfo.operator m) ∧
              is_Some (MakerInfo.approved m) ∧
              MakerInfo.checkApproval m = Some true)))
    (Locals.makerInfos (decodeLogs logs w)) ∧
  length (Locals.makerInfos (decodeLogs logs w))
  = (2 * length (Locals.transferEvents (decodeLogs logs w))
     + length (Locals.approvalEvents (decodeLogs logs w)))%nat.
Proof. rewrite decodeLogs_decoded. apply decoded_makerInfos_shape. Qed.

(** X3: every event handed to the store carries the base parameters
    extracted from a log of the batch whose [topics[0]] is the topic of
    that event kind, and every [MakerInfo] names as [contract] the address
    in the base parameters of a log of the batch and as [context] that
    log's [txHash + "-" + logIndex]. *)
Theorem decoded_events_come_from_logs logs w :
  Forall (fun ev => exists log,
            log ∈ logs ∧
            Log.topics log !! 0%nat = Some TransferTopic ∧
            parseEvent log = Ok (NftTransferEvent.baseParams ev))
    (Locals.transferEvents (decodeLogs logs w)) ∧
  Forall (fun ev => exists log,
            log ∈ logs ∧
            Log.topics log !! 0%nat = Some ApprovalForAllTopic ∧
            parseEvent log = Ok (NftApprovalEvent.baseParams ev))
    (Locals.approvalEvents (decodeLogs logs w)) ∧
  Forall (fun m => exists log baseParams,
            log ∈ logs ∧
            parseEvent log = Ok baseParams ∧
            MakerInfo.contract m = BaseEventParams.address baseParams ∧
            MakerInfo.context m
              = BaseEventParams.txHash baseParams +:+ "-" +:+
                pretty (BaseEventParams.logIndex baseParams))
    (Locals.makerInfos (decodeLogs logs w)).
Proof. rewrite decodeLogs_decoded. apply decoded_provenance. Qed.

(** X4: delivering a batch in two consecutive calls leaves the same event
    tables and the same logger entries as delivering it in one call; the
    queue receives the same [MakerInfo] entries in the same order, in two
    batches instead of one. *)
Theorem syncCallback_in_two_batches address logs1 logs2 backfill w :
  let sync := ContractInfo.syncCallback (getContractInfo address) in
  let once := (sync (logs1 ++ logs2) backfill w).2 in
  let twice := (sync logs2 backfill (sync logs1 backfill w).2).2 in
  World.nft_approval_events twice = World.nft_approval_events once ∧
  World.nft_transfer_events twice = World.nft_transfer_events once ∧
  World.logger twice = World.logger once ∧
  concat (drop (length (World.ordersUpdateByMakerQueue w))
            (World.ordersUpdateByMakerQueue twice))
  = concat (drop (length (World.ordersUpdateByMakerQueue w))
              (World.ordersUpdateByMakerQueue once)).
Proof.
  intros sync once twice. subst sync once twice.
  rewrite !syncCallback_run. cbn [fst snd].
  cbn [World.nft_approval_events World.nft_transfer_events World.logger
       World.ordersUpdateByMakerQueue World.config].
  rewrite decoded_app, failures_app. unfold Locals.app; simpl.
  rewrite !add_app, app_assoc.
  repeat split.
  destruct (notBackfill backfill && Config.acceptOrders (World.config w)).
  - rewrite <- app_assoc, !drop_app_length. simpl. by rewrite !app_nil_r.
  - done.
Qed.

(** X5: delivering the same batch a second time, in whatever mode, leaves
    both event tables as the first delivery left them. *)
Theorem syncCallback_redelivery address logs backfill1 backfill2 w :
  let sync := ContractInfo.syncCallback (getContractInfo address) logs in
  let first := (sync backfill1 w).2 in
  let second := (sync backfill2 first).2 in
  World.nft_approval_events second = World.nft_approval_events first ∧
  World.nft_transfer_events second = World.nft_transfer_events first.
Proof.
  intros sync first second. subst sync first second.
  rewrite !syncCallback_run. cbn [fst snd].
  cbn [World.nft_approval_events World.nft_transfer_events].
  by rewrite !add_idempotent.
Qed.

(** X6: [syncCallback] never removes or rewrites a stored row: each
    event table it leaves starts with the table it found, row for row;
    what it stores does not depend on the backfill flag; and it keeps the
    primary key unique in both tables. *)
Theorem syncCallback_only_appends address logs backfill w :
  pkUnique (World.nft_approval_events w) ->
  pkUnique (World.nft_transfer_events w) ->
  let sync := ContractInfo.syncCallback (getContractInfo address) logs in
  World.nft_approval_events w
    `prefix_of` World.nft_approval_events (sync backfill w).2 ∧
  World.nft_transfer_events w
    `prefix_of` World.nft_transfer_events (sync backfill w).2 ∧
  pkUnique (World.nft_approval_events (sync backfill w).2) ∧
  pkUnique (World.nft_transfer_events (sync backfill w).2) ∧
  World.nft_approval_events (sync backfill w).2
    = World.nft_approval_events (sync (Some true) w).2 ∧
  World.nft_transfer_events (sync backfill w).2
    = World.nft_transfer_events (sync (Some true) w).2.
Proof.
  intros Ha Ht sync. subst sync. rewrite !syncCallback_run. cbn [fst snd].
  cbn [World.nft_approval_events World.nft_transfer_events].
  split; [|split; [|split; [|split]]].
  - destruct (add_extends (Locals.approvalEvents (decoded logs))
                (World.nft_approval_events w)) as (more & -> & _).
    by exists more.
  - destruct (add_extends (Locals.transferEvents (decoded logs))
                (World.nft_transfer_events w)) as (more & -> & _).
    by exists more.
  - by apply add_pkUnique.
  - by apply add_pkUnique.
  - done.
Qed.

Lemma syncCallback_only_appends_witness :
  pkUnique (World.nft_approval_events Fixture.world) ∧
  pkUnique (World.nft_transfer_events Fixture.world) ∧
  World.nft_transfer_events Fixture.world
    `prefix_of`
    World.nft_transfer_events
      (ContractInfo.syncCallback (getContractInfo None) Fixture.batch None
         Fixture.world).2.
Proof.
  assert (Ha : pkUnique (World.nft_approval_events Fixture.world))
    by apply NoDup_nil_2.
  assert (Ht : pkUnique (World.nft_transfer_events Fixture.world))
    by apply NoDup_singleton.
  split; [exact Ha|]. split; [exact Ht|].
  exact (proj1 (proj2 (syncCallback_only_appends None Fixture.batch None
                         Fixture.world Ha Ht))).
Defined.

Lemma decoded_blockHash blockHash logs :
  Forall (fun log => Log.blockHash log = Some blockHash) logs ->
  Forall (fun ev => blockHashOf ev = blockHash)
    (Locals.approvalEvents (decoded logs)) ∧
  Forall (fun ev => blockHashOf ev = blockHash)
    (Locals.transferEvents (decoded logs)).
Proof.
  intros Hblock. rewrite Forall_forall in Hblock.
  destruct (decoded_provenance logs) as (Ht & Ha & _).
  split; (eapply Forall_impl; [eassumption|]).
  - intros ev (log & Hin & _ & Hbp).
    apply parseEvent_fields in Hbp as (Hbh & _).
    rewrite (Hblock log Hin) in Hbh. injection Hbh as Hbh.
    symmetry. exact Hbh.
  - intros ev (log & Hin & _ & Hbp).
    apply parseEvent_fields in Hbp as (Hbh & _).
    rewrite (Hblock log Hin) in Hbh. injection Hbh as Hbh.
    symmetry. exact Hbh.
Qed.

(** X7: rolling a block back undoes its ingestion. If every log of a
    batch lies in block [blockHash], then [fixCallback(blockHash)] after
    [syncCallback] of that batch leaves both event tables as
    [fixCallback(blockHash)] alone would; if the tables held no row of
    that block before, they are restored exactly. *)
Theorem fixCallback_undoes_syncCallback address blockHash logs backfill w :
  Forall (fun log => Log.blockHash log = Some blockHash) logs ->
  let info := getContractInfo address in
  let synced := (ContractInfo.syncCallback info logs backfill w).2 in
  let rolledBack := (ContractInfo.fixCallback info blockHash synced).2 in
  World.nft_approval_events rolledBack
    = World.nft_approval_events (ContractInfo.fixCallback info blockHash w).2 ∧
  World.nft_transfer_events rolledBack
    = World.nft_transfer_events (ContractInfo.fixCallback info blockHash w).2 ∧
  (Forall (fun ev => blockHashOf ev ≠ blockHash) (World.nft_approval_events w) ->
   World.nft_approval_events rolledBack = World.nft_approval_events w) ∧
  (Forall (fun ev => blockHashOf ev ≠ blockHash) (World.nft_transfer_events w) ->
   World.nft_transfer_events rolledBack = World.nft_transfer_events w).
Proof.
  intros Hblock info synced rolledBack. subst info synced rolledBack.
  rewrite syncCallback_run. cbn [snd].
  destruct (decoded_blockHash blockHash logs Hblock) as [Ha Ht].
  simpl. unfold bind, removeNftApprovalEvents, removeNftTransferEvents, modify.
  simpl. rewrite !removeByBlockHash_add by done.
  repeat split; intros Hnone; by apply removeByBlockHash_none.
Qed.

Lemma fixCallback_undoes_syncCallback_witness :
  Forall (fun log => Log.blockHash log = Some "0xb10c") Fixture.batch ∧
  World.nft_transfer_events
    (ContractInfo.fixCallback (getContractInfo None) "0xb10c"
       (ContractInfo.syncCallback (getContractInfo None) Fixture.batch None
          Fixture.world).2).2
  = World.nft_transfer_events Fixture.world.
Proof.
  assert (Hblock : Forall (fun log => Log.blockHash log = Some "0xb10c")
                     Fixture.batch)
    by (repeat constructor).
  split; [exact Hblock|].
  refine (proj2 (proj2 (proj2 (fixCallback_undoes_syncCallback None "0xb10c"
                                 Fixture.batch None Fixture.world Hblock))) _).
  repeat constructor. vm_compute. discriminate.
Defined.

(** X8: [fixCallback] touches nothing but the two event tables (queue,
    logger and configuration stay as they are), it keeps the primary key
    unique, rollbacks of two blocks commute, and a rollback of a block
    with no stored row changes nothing. *)
Theorem fixCallback_frame address blockHash1 blockHash2 w :
  let fixCallback := ContractInfo.fixCallback (getContractInfo address) in
  World.ordersUpdateByMakerQueue (fixCallback blockHash1 w).2
    = World.ordersUpdateByMakerQueue w ∧
  World.logger (fixCallback blockHash1 w).2 = World.logger w ∧
  World.config (fixCallback blockHash1 w).2 = World.config w ∧
  fixCallback blockHash1 (fixCallback blockHash2 w).2
    = fixCallback blockHash2 (fixCallback blockHash1 w).2 ∧
  (pkUnique (World.nft_approval_events w) ->
   pkUnique (World.nft_approval_events (fixCallback blockHash1 w).2)) ∧
  (pkUnique (World.nft_transfer_events w) ->
   pkUnique (World.nft_transfer_events (fixCallback blockHash1 w).2)) ∧
  (Forall (fun ev => blockHashOf ev ≠ blockHash1) (World.nft_approval_events w) ->
   Forall (fun ev => blockHashOf ev ≠ blockHash1) (World.nft_transfer_events w) ->
   fixCallback blockHash1 w = (Ok tt, w)).
Proof.
  intros fixCallback. subst fixCallback. simpl.
  unfold bind, removeNftApprovalEvents, removeNftTransferEvents, modify.
  simpl. split; [done|]. split; [done|]. split; [done|]. split.
  - unfold World.set_nft_transfer_events, World.set_nft_approval_events.
    simpl. f_equal. f_equal; apply removeByBlockHash_comm.
  - split; [apply removeByBlockHash_pkUnique|].
    split; [apply removeByBlockHash_pkUnique|].
    intros Ha Ht.
    unfold World.set_nft_transfer_events, World.set_nft_approval_events.
    simpl. rewrite (removeByBlockHash_none _ _ Ha).
    rewrite (removeByBlockHash_none _ _ Ht). by destruct w.
Qed.

(** X9: an empty batch stores nothing and logs nothing, but in live mode
    with [acceptOrders] on the queue is still called, with an empty
    batch. *)
Theorem syncCallback_empty_batch address backfill w :
  ContractInfo.syncCallback (getContractInfo address) [] backfill w =
  (Ok tt,
   World.set_ordersUpdateByMakerQueue
     (fun queue =>
        if notBackfill backfill && Config.acceptOrders (World.config w)
        then queue ++ [[]] else queue) w).
Proof.
  rewrite syncCallback_run. unfold World.set_ordersUpdateByMakerQueue.
  simpl. by rewrite app_nil_r.
Qed.

(** ** Which logs decode *)

Lemma dataReader_first data :
  (exists w, dataReader data 0%nat = Ok w ∧ (32 <= length data)%nat) ∨
  (dataReader data 0%nat = Thrown BUFFER_OVERRUN ∧ (length data < 32)%nat).
Proof.
  unfold dataReader. change (32 * 0)%nat with 0%nat. rewrite drop_0.
  rewrite length_take. case_decide as Hlen.
  - left. eexists. split; [done|]. lia.
  - right. split; [done|]. lia.
Qed.

Lemma parseLog_abi_transfer log from to tokenId more :
  Log.topics log = TransferTopic :: from :: to :: tokenId :: more ->
  exists parsedLog,
    parseLog abi log = Ok parsedLog ∧
    LogDescription.args parsedLog = transferArgs from to tokenId.
Proof.
  intros Htopics. unfold parseLog. rewrite Htopics.
  eexists. split; reflexivity.
Qed.

Lemma parseLog_transfer_short log rest :
  Log.topics log = TransferTopic :: rest ->
  (length rest < 2)%nat ->
  parseLog abi log = Thrown BUFFER_OVERRUN ∧
  parseLog nonStandardAbi log = Thrown BUFFER_OVERRUN.
Proof.
  intros Htopics Hlen. unfold parseLog. rewrite Htopics.
  destruct rest as [|a [|b rest]]; [by split|by split|simpl in Hlen; lia].
Qed.

Lemma parseLog_nonStandardAbi_no_data log from to e :
  Log.topics log = [TransferTopic; from; to] ->
  dataReader (Log.data log) 0%nat = Thrown e ->
  parseLog nonStandardAbi log = Thrown e.
Proof.
  intros Htopics Hdata. unfold parseLog. rewrite Htopics.
  cbv beta iota.
  change ([TransferTopic; from; to] !! 0%nat) with (Some TransferTopic).
  cbv beta iota.
  change (getEventByTopic nonStandardAbi TransferTopic)
    with (Ok (EventFragment.mk "Transfer" [
                ParamType.mk address_t true "from";
                ParamType.mk address_t true "to";
                ParamType.mk uint256_t false "tokenId"])).
  cbn [mbind Outcome_bind]. unfold decodeEventLog.
  rewrite decide_True by reflexivity.
  cbn -[dataReader coderDecode Z.modulo Z.pow].
  by rewrite Hdata.
Qed.

Lemma processLog_transfer_thrown log e ls :
  Log.topics log !! 0%nat = Some TransferTopic ->
  parseTransferLog log = Thrown e ->
  (processLog log ls).1 ≠ Ok tt.
Proof.
  intros Htopic Hparse. unfold processLog, dispatch, bind, lift.
  rewrite getEventTopic_Transfer.
  destruct (parseEvent log); [|done].
  rewrite decide_True by done. by rewrite Hparse.
Qed.

(** X10: which [Transfer] logs decode. A log with the [Transfer] topic
    whose base parameters are extracted yields an event exactly when it
    has at least two further topics, both of them 20-byte addresses, and
    either a third further topic or at least 32 bytes of data. With three
    further topics the event is read from the topics alone: the data and
    any further topic play no role. *)
Theorem transfer_decodes_iff log baseParams rest ls :
  parseEvent log = Ok baseParams ->
  Log.topics log = TransferTopic :: rest ->
  ((processLog log ls).1 = Ok tt ↔
   exists from to more,
     rest = from :: to :: more ∧ from < 2 ^ 160 ∧ to < 2 ^ 160 ∧
     (more ≠ [] ∨ (32 <= length (Log.data log))%nat)) ∧
  (forall from to tokenId more,
     rest = from :: to :: tokenId :: more ->
     from < 2 ^ 160 -> to < 2 ^ 160 ->
     processLog log ls =
     (Ok tt,
      Locals.mk (Locals.approvalEvents ls)
        (Locals.transferEvents ls ++
           [NftTransferEvent.mk (pretty (tokenId mod 2 ^ 256))
              (addressToLowerCase from) (addressToLowerCase to) "1"
              baseParams])
        (Locals.makerInfos ls ++
           [MakerInfo.mk (contextOf baseParams) sell
              (addressToLowerCase from)
              (BaseEventParams.address baseParams)
              (Some (pretty (tokenId mod 2 ^ 256))) None None None;
            MakerInfo.mk (contextOf baseParams) sell
              (addressToLowerCase to)
              (BaseEventParams.address baseParams)
              (Some (pretty (tokenId mod 2 ^ 256))) None None None]))).
Proof.
  intros Hbp Htopics.
  assert (Htopic : Log.topics log !! 0%nat = Some TransferTopic)
    by (by rewrite Htopics).
  assert (Hstd : forall from to tokenId more,
            rest = from :: to :: tokenId :: more ->
            processLog log ls =
            if decide (from < 2 ^ 160 ∧ to < 2 ^ 160) then
              (Ok tt,
               Locals.mk (Locals.approvalEvents ls)
                 (Locals.transferEvents ls ++
                    [NftTransferEvent.mk (pretty (tokenId mod 2 ^ 256))
                       (addressToLowerCase from) (addressToLowerCase to) "1"
                       baseParams])
                 (Locals.makerInfos ls ++
                    [MakerInfo.mk (contextOf baseParams) sell
                       (addressToLowerCase from)
                       (BaseEventParams.address baseParams)
                       (Some (pretty (tokenId mod 2 ^ 256))) None None None;
                     MakerInfo.mk (contextOf baseParams) sell
                       (addressToLowerCase to)
                       (BaseEventParams.address baseParams)
                       (Some (pretty (tokenId mod 2 ^ 256))) None None None]))
            else (Thrown INVALID_ARGUMENT, ls)).
  { intros from to tokenId more ->.
    destruct (parseLog_abi_transfer log from to tokenId more Htopics)
      as (parsedLog & Hparse & Hargs).
    rewrite (processLog_transferArgs log parsedLog from to tokenId ls Htopic);
      [by rewrite Hbp| |done].
    unfold parseTransferLog. by rewrite Hparse. }
  split.
  - destruct rest as [|from [|to [|tokenId more]]].
    + destruct (parseLog_transfer_short log [] Htopics) as [Hp Hf];
        [simpl; lia|].
      split; [|by intros (? & ? & ? & ? & _)].
      intros Hok. exfalso.
      apply (processLog_transfer_thrown log BUFFER_OVERRUN ls Htopic);
        [|done].
      unfold parseTransferLog. by rewrite Hp.
    + destruct (parseLog_transfer_short log [from] Htopics) as [Hp Hf];
        [simpl; lia|].
      split; [|by intros (? & ? & ? & ? & _)].
      intros Hok. exfalso.
      apply (processLog_transfer_thrown log BUFFER_OVERRUN ls Htopic);
        [|done].
      unfold parseTransferLog. by rewrite Hp.
    + pose proof (parseLog_abi_two_topics log from to Htopics) as Hp.
      destruct (dataReader_first (Log.data log))
        as [(tokenId & Hdata & Hlen)|[Hdata Hlen]].
      * destruct (parseLog_nonStandardAbi_two_topics log from to tokenId
                    Htopics Hdata) as (parsedLog & Hf & Hargs).
        rewrite (processLog_transferArgs log parsedLog from to tokenId ls
                   Htopic); [| |done].
        2:{ unfold parseTransferLog. by rewrite Hp. }
        rewrite Hbp. case_decide as Haddr; simpl.
        -- split; [|done]. intros _. exists from, to, [].
           destruct Haddr. repeat split; try done. by right.
        -- split; [done|].
           intros (f & t & m & [= <- <- <-] & Hf' & Ht' & _). tauto.
      * split.
        -- intros Hok. exfalso.
           apply (processLog_transfer_thrown log BUFFER_OVERRUN ls Htopic);
             [|done].
           unfold parseTransferLog. rewrite Hp.
           by apply (parseLog_nonStandardAbi_no_data log from to).
        -- intros (f & t & m & [= <- <- <-] & _ & _ & [Hm|Hm]); [done|lia].
    + rewrite (Hstd from to tokenId more eq_refl).
      case_decide as Haddr; simpl.
      * split; [|done]. intros _. exists from, to, (tokenId :: more).
        destruct Haddr. repeat split; try done. by left.
      * split; [done|].
        intros (f & t & m & [= <- <- <-] & Hf' & Ht' & _). tauto.
  - intros from to tokenId more Hrest Hfrom Hto.
    rewrite (Hstd from to tokenId more Hrest). by rewrite decide_True.
Qed.

Lemma transfer_decodes_iff_witness :
  parseEvent Sample.standardTransfer
    = Ok (BaseEventParams.mk "0x8d04a8c79ceb0889bdd12acdf3fa9d207ed3ff63"
            14000000 "0xb10c" "0x7a11" 3 0 1643809164) ∧
  Log.topics Sample.standardTransfer
    = TransferTopic :: [Sample.alice; Sample.bob; 7] ∧
  (processLog Sample.standardTransfer Locals.empty).1 = Ok tt.
Proof.
  split; [reflexivity|]. split; [reflexivity|].
  refine (proj2 (proj1 (transfer_decodes_iff Sample.standardTransfer _
                          [Sample.alice; Sample.bob; 7] Locals.empty
                          eq_refl eq_refl)) _).
  exists Sample.alice, Sample.bob, [7].
  split; [reflexivity|]. split; [reflexivity|]. split; [reflexivity|].
  left. discriminate.
Defined.

Lemma getEventByTopic_abi_ApprovalForAll :
  getEventByTopic abi ApprovalForAllTopic
  = Ok (EventFragment.mk "ApprovalForAll" [
          ParamType.mk address_t true "owner";
          ParamType.mk address_t true "operator";
          ParamType.mk bool_t false "approved"]).
Proof. reflexivity. Qed.

Lemma parseLog_abi_approval_short log rest :
  Log.topics log = ApprovalForAllTopic :: rest ->
  (length rest < 2)%nat ->
  parseLog abi log = Thrown BUFFER_OVERRUN.
Proof.
  intros Htopics Hlen. unfold parseLog. rewrite Htopics.
  destruct rest as [|a [|b rest]]; [done|done|simpl in Hlen; lia].
Qed.

Lemma parseLog_abi_approval log owner operator more :
  Log.topics log = ApprovalForAllTopic :: owner :: operator :: more ->
  match dataReader (Log.data log) 0%nat with
  | Ok approved =>
      exists parsedLog,
        parseLog abi log = Ok parsedLog ∧
        LogDescription.args parsedLog = approvalArgs owner operator approved
  | Thrown e => parseLog abi log = Thrown e
  end.
Proof.
  intros Htopics. unfold parseLog. rewrite Htopics.
  cbv beta iota.
  change ((ApprovalForAllTopic :: owner :: operator :: more) !! 0%nat)
    with (Some ApprovalForAllTopic).
  cbv beta iota. rewrite getEventByTopic_abi_ApprovalForAll.
  cbn [mbind Outcome_bind]. unfold decodeEventLog.
  rewrite decide_True by reflexivity.
  cbn -[dataReader coderDecode Z.eqb].
  destruct (dataReader (Log.data log) 0%nat) as [approved|e]; [|done].
  eexists. split; reflexivity.
Qed.

Lemma getArg_approval (v1 v2 v3 : Outcome Value) :
  let args := [("owner", v1); ("operator", v2); ("approved", v3)] in
  getArg args "owner" = (v ← v1; mret (Some v)) ∧
  getArg args "operator" = (v ← v2; mret (Some v)) ∧
  getArg args "approved" = (v ← v3; mret (Some v)).
Proof. repeat split; by destruct v1, v2, v3. Qed.

Lemma processLog_approval_thrown log e ls :
  Log.topics log !! 0%nat = Some ApprovalForAllTopic ->
  parseLog abi log = Thrown e ->
  (processLog log ls).1 ≠ Ok tt.
Proof.
  intros Htopic Hparse. unfold processLog, dispatch, bind, lift.
  rewrite getEventTopic_Transfer, getEventTopic_ApprovalForAll.
  destruct (parseEvent log); [|done].
  rewrite decide_False
    by (rewrite Htopic; intros [= Heq]; by destruct Transfer_ne_ApprovalForAll).
  rewrite decide_True by done. by rewrite Hparse.
Qed.

Lemma processLog_approvalArgs log parsedLog owner operator approved ls :
  Log.topics log !! 0%nat = Some ApprovalForAllTopic ->
  parseLog abi log = Ok parsedLog ->
  LogDescription.args parsedLog = approvalArgs owner operator approved ->
  processLog log ls =
  match parseEvent log with
  | Thrown e => (Thrown e, ls)
  | Ok baseParams =>
      if decide (owner < 2 ^ 160 ∧ operator < 2 ^ 160) then
        (Ok tt,
         Locals.mk
           (Locals.approvalEvents ls ++
              [NftApprovalEvent.mk (addressToLowerCase owner)
                 (addressToLowerCase operator) (negb (approved =? 0))
                 baseParams])
           (Locals.transferEvents ls)
           (Locals.makerInfos ls ++
              [MakerInfo.mk (contextOf baseParams) sell
                 (addressToLowerCase owner)
                 (BaseEventParams.address baseParams)
                 None (Some (addressToLowerCase operator))
                 (Some (negb (approved =? 0))) (Some true)]))
      else (Thrown INVALID_ARGUMENT, ls)
  end.
Proof.
  intros Htopic Hparse Hargs.
  unfold processLog, dispatch, bind, lift.
  rewrite getEventTopic_Transfer, getEventTopic_ApprovalForAll.
  destruct (parseEvent log) as [bp|e]; [|done].
  rewrite decide_False
    by (rewrite Htopic; intros [= Heq]; by destruct Transfer_ne_ApprovalForAll).
  rewrite decide_True by done. rewrite Hparse, Hargs.
  unfold approvalArgs.
  destruct (getArg_approval (coderDecode address_t owner)
              (coderDecode address_t operator)
              (Ok (VBool (negb (approved =? 0))))) as (-> & -> & ->).
  unfold Locals.push_makerInfos, Locals.push_approvalEvents, modify,
    coderDecode.
  destruct (decide (owner < 2 ^ 160)) as [Ho|Ho];
    destruct (decide (operator < 2 ^ 160)) as [Hp|Hp].
  - rewrite decide_True by done.
    cbn -[Z.eqb Z.pow pretty addressToLowerCase]. done.
  - rewrite decide_False by tauto. reflexivity.
  - rewrite decide_False by tauto. reflexivity.
  - rewrite decide_False by tauto. reflexivity.
Qed.

(** X11: which [ApprovalForAll] logs decode. There is no fallback table
    for this event: a log with the [ApprovalForAll] topic whose base
    parameters are extracted yields an event exactly when it has at least
    two further topics, both 20-byte addresses, and at least 32 bytes of
    data. [approved] is then [false] if the first data word is zero and
    [true] for every other word. *)
Theorem approvalForAll_decodes_iff log baseParams rest ls :
  parseEvent log = Ok baseParams ->
  Log.topics log = ApprovalForAllTopic :: rest ->
  ((processLog log ls).1 = Ok tt ↔
   exists owner operator more,
     rest = owner :: operator :: more ∧
     owner < 2 ^ 160 ∧ operator < 2 ^ 160 ∧
     (32 <= length (Log.data log))%nat) ∧
  (forall owner operator more approved,
     rest = owner :: operator :: more ->
     dataReader (Log.data log) 0%nat = Ok approved ->
     owner < 2 ^ 160 -> operator < 2 ^ 160 ->
     processLog log ls =
     (Ok tt,
      Locals.mk
        (Locals.approvalEvents ls ++
           [NftApprovalEvent.mk (addressToLowerCase owner)
              (addressToLowerCase operator) (negb (approved =? 0))
              baseParams])
        (Locals.transferEvents ls)
        (Locals.makerInfos ls ++
           [MakerInfo.mk (contextOf baseParams) sell
              (addressToLowerCase owner)
              (BaseEventParams.address baseParams)
              None (Some (addressToLowerCase operator))
              (Some (negb (approved =? 0))) (Some true)]))).
Proof.
  intros Hbp Htopics.
  assert (Htopic : Log.topics log !! 0%nat = Some ApprovalForAllTopic)
    by (by rewrite Htopics).
  split.
  - destruct rest as [|owner [|operator more]].
    + pose proof (parseLog_abi_approval_short log [] Htopics) as Hp.
      split; [|by intros (? & ? & ? & ? & _)].
      intros Hok. exfalso.
      apply (processLog_approval_thrown log BUFFER_OVERRUN ls Htopic);
        [apply Hp; simpl; lia|done].
    + pose proof (parseLog_abi_approval_short log [owner] Htopics) as Hp.
      split; [|by intros (? & ? & ? & ? & _)].
      intros Hok. exfalso.
      apply (processLog_approval_thrown log BUFFER_OVERRUN ls Htopic);
        [apply Hp; simpl; lia|done].
    + pose proof (parseLog_abi_approval log owner operator more Htopics) as Hp.
      destruct (dataReader_first (Log.data log))
        as [(approved & Hdata & Hlen)|[Hdata Hlen]]; rewrite Hdata in Hp.
      * destruct Hp as (parsedLog & Hparse & Hargs).
        rewrite (processLog_approvalArgs log parsedLog owner operator approved
                   ls Htopic Hparse Hargs).
        rewrite Hbp. case_decide as Haddr; simpl.
        -- split; [|done]. intros _. exists owner, operator, more.
           destruct Haddr. by repeat split.
        -- split; [done|].
           intros (o & p & m & [= <- <- <-] & Ho & Hp' & _). tauto.
      * split.
        -- intros Hok. exfalso.
           by apply (processLog_approval_thrown log BUFFER_OVERRUN ls Htopic).
        -- intros (o & p & m & _ & _ & _ & Hm). lia.
  - intros owner operator more approved -> Hdata Howner Hoperator.
    pose proof (parseLog_abi_approval log owner operator more Htopics) as Hp.
    rewrite Hdata in Hp. destruct Hp as (parsedLog & Hparse & Hargs).
    rewrite (processLog_approvalArgs log parsedLog owner operator approved
               ls Htopic Hparse Hargs).
    rewrite Hbp. by rewrite decide_True.
Qed.

Lemma approvalForAll_decodes_iff_witness :
  parseEvent Sample.approvalForAll
    = Ok (BaseEventParams.mk "0x8d04a8c79ceb0889bdd12acdf3fa9d207ed3ff63"
            14000000 "0xb10c" "0x7a11" 3 2 1643809164) ∧
  Log.topics Sample.approvalForAll
    = ApprovalForAllTopic :: [Sample.alice; Sample.bob] ∧
  (processLog Sample.approvalForAll Locals.empty).1 = Ok tt.
Proof.
  split; [reflexivity|]. split; [reflexivity|].
  refine (proj2 (proj1 (approvalForAll_decodes_iff Sample.approvalForAll _
                          [Sample.alice; Sample.bob] Locals.empty
                          eq_refl eq_refl)) _).
  exists Sample.alice, Sample.bob, [].
  split; [reflexivity|]. split; [reflexivity|]. split; [reflexivity|].
  vm_compute. lia.
Defined.

(** ** The migration *)

Lemma Sql_up_run c :
  Sql.run Sql.up c =
  if bool_decide (is_Some (Sql.relations c !! "cancel_events")) then
    inl Sql.duplicate_table
  else if Sql.typeExists c "order_kind_t" then
    if bool_decide ("cancel_events" ∈ Sql.types c) then
      inl Sql.duplicate_object
    else if bool_decide (is_Some (Sql.relations c !! "cancel_events_pk")) then
      inl Sql.duplicate_table
    else
      inr (Sql.mkCatalog (Sql.types c)
             (<["cancel_events_pk" :=
                  Sql.Index "cancel_events"
                    ["block_hash"; "tx_hash"; "log_index"]]>
                (<["cancel_events" :=
                     Sql.Table Sql.cancel_events_columns
                       (Some ("cancel_events_pk",
                              ["block_hash"; "tx_hash"; "log_index"]))]>
                   (Sql.relations c))))
  else inl Sql.undefined_object.
Proof.
  unfold Sql.up, Sql.run, Sql.exec.
  destruct (bool_decide (is_Some (Sql.relations c !! "cancel_events")));
    [done|].
  assert (Htypes : forallb (fun col => Sql.typeKnown c (Sql.columnType col))
                     Sql.cancel_events_columns
                   = Sql.typeExists c "order_kind_t").
  { cbn. by destruct (Sql.typeExists c "order_kind_t"). }
  rewrite Htypes.
  destruct (Sql.typeExists c "order_kind_t"); [|done].
  assert (Hnames : bool_decide
                     (NoDup ((Sql.columnName <$> Sql.cancel_events_columns)
                             ++ Sql.systemColumns))
                   = true) by (by vm_compute).
  rewrite Hnames. cbn [negb].
  destruct (bool_decide ("cancel_events" ∈ Sql.types c)); [done|].
  cbn [Sql.relations Sql.types].
  rewrite lookup_insert_eq.
  assert (Hnodup : bool_decide
                     (NoDup ["block_hash"; "tx_hash"; "log_index"]) = true)
    by (by vm_compute).
  rewrite Hnodup. cbn [negb].
  assert (Hkeys : forallb
                    (fun k => bool_decide
                                (k ∈ (Sql.columnName <$> Sql.cancel_events_columns)
                                     ++ Sql.systemColumns))
                    ["block_hash"; "tx_hash"; "log_index"] = true)
    by (by vm_compute).
  rewrite Hkeys. cbn [negb].
  rewrite (bool_decide_eq_false_2 (is_Some None)) by (by intros [? ?]).
  assert (Hown : forallb
                   (fun k => bool_decide
                               (k ∈ Sql.columnName <$> Sql.cancel_events_columns))
                   ["block_hash"; "tx_hash"; "log_index"] = true)
    by (by vm_compute).
  rewrite Hown. cbn [negb].
  rewrite lookup_insert_ne by done.
  destruct (bool_decide (is_Some (Sql.relations c !! "cancel_events_pk")));
    [done|].
  rewrite insert_insert_eq.
  assert (Hcols : ((fun col =>
                      if bool_decide (Sql.columnName col
                                      ∈ ["block_hash"; "tx_hash"; "log_index"])
                      then Sql.mkColumn (Sql.columnName col)
                             (Sql.columnType col) true
                      else col) <$> Sql.cancel_events_columns)
                  = Sql.cancel_events_columns) by (by vm_compute).
  by rewrite Hcols.
Qed.

Lemma Sql_typeExists c name :
  Sql.typeExists c name = true ↔
  name ∈ Sql.types c ∨
  exists relation,
    Sql.relations c !! name = Some relation ∧
    Sql.hasRowType relation = true.
Proof.
  unfold Sql.typeExists. rewrite orb_true_iff, bool_decide_eq_true.
  split; (intros [Htype|Hrelation]; [by left|right]).
  - destruct (Sql.relations c !! name) as [relation|]; [|done].
    by exists relation.
  - by destruct Hrelation as (relation & -> & Hrow).
Qed.

Lemma Sql_down_run c :
  Sql.run Sql.down c =
  match Sql.relations c !! "cancel_events" with
  | None => inl Sql.undefined_table
  | Some (Sql.Index _ _) | Some (Sql.Other _) => inl Sql.wrong_object_type
  | Some (Sql.Table _ None) =>
      inr (Sql.mkCatalog (Sql.types c)
             (delete "cancel_events" (Sql.relations c)))
  | Some (Sql.Table _ (Some (constraintName, _))) =>
      inr (Sql.mkCatalog (Sql.types c)
             (delete constraintName
                (delete "cancel_events" (Sql.relations c))))
  end.
Proof.
  unfold Sql.down, Sql.run, Sql.exec.
  by destruct (Sql.relations c !! "cancel_events") as [[? [[? ?]|]|? ?|?]|].
Qed.

(** X12: the down migration undoes the up migration. Whenever the up
    migration succeeds on a catalog, the down migration succeeds on the
    result and gives back the catalog the up migration started from. *)
Theorem migration_down_undoes_up c c' :
  Sql.run Sql.up c = inr c' ->
  Sql.run Sql.down c' = inr c.
Proof.
  rewrite Sql_up_run.
  case_bool_decide as Htable; [done|].
  destruct (Sql.typeExists c "order_kind_t"); [|done].
  case_bool_decide as Hname; [done|].
  case_bool_decide as Hindex; [done|].
  intros [= <-]. rewrite Sql_down_run. cbn [Sql.relations Sql.types].
  rewrite lookup_insert_ne by done. rewrite lookup_insert_eq.
  rewrite delete_insert_ne by done.
  rewrite (delete_insert_id (Sql.relations c) "cancel_events")
    by (by apply eq_None_not_Some).
  rewrite delete_insert_id by (by apply eq_None_not_Some).
  by destruct c.
Qed.

Lemma migration_down_undoes_up_witness :
  Sql.run Sql.up Sql.fresh
    = inr (Sql.mkCatalog {["order_kind_t"]}
             (<["cancel_events_pk" :=
                  Sql.Index "cancel_events"
                    ["block_hash"; "tx_hash"; "log_index"]]>
                (<["cancel_events" :=
                     Sql.Table Sql.cancel_events_columns
                       (Some ("cancel_events_pk",
                              ["block_hash"; "tx_hash"; "log_index"]))]>
                   ∅))) ∧
  Sql.run Sql.down
    (Sql.mkCatalog {["order_kind_t"]}
       (<["cancel_events_pk" :=
            Sql.Index "cancel_events"
              ["block_hash"; "tx_hash"; "log_index"]]>
          (<["cancel_events" :=
               Sql.Table Sql.cancel_events_columns
                 (Some ("cancel_events_pk",
                        ["block_hash"; "tx_hash"; "log_index"]))]>
             ∅)))
  = inr Sql.fresh.
Proof.
  assert (Hup : Sql.run Sql.up Sql.fresh
                = inr (Sql.mkCatalog {["order_kind_t"]}
                         (<["cancel_events_pk" :=
                              Sql.Index "cancel_events"
                                ["block_hash"; "tx_hash"; "log_index"]]>
                            (<["cancel_events" :=
                                 Sql.Table Sql.cancel_events_columns
                                   (Some ("cancel_events_pk",
                                          ["block_hash"; "tx_hash";
                                           "log_index"]))]>
                               ∅)))).
  { rewrite Sql_up_run. reflexivity. }
  split; [exact Hup|].
  exact (migration_down_undoes_up _ _ Hup).
Defined.

(** X13: when the up migration succeeds. It succeeds exactly on a
    catalog in which [order_kind_t] names a type (a type of its own or
    the row type of a relation), nothing is named [cancel_events]
    (neither a relation nor a type) and no relation is named
    [cancel_events_pk].
    It then adds the table, with its primary key on
    [(block_hash, tx_hash, log_index)] and the index of that key, makes
    [cancel_events] usable as a column type, and changes no other
    relation and none of the other types. Neither direction can be
    repeated: a second up fails with [duplicate_table], and down fails
    with [undefined_table] when no relation is named [cancel_events]. *)
Theorem migration_up_succeeds_iff c :
  ((exists c', Sql.run Sql.up c = inr c') ↔
   (("order_kind_t" ∈ Sql.types c ∨
     exists relation,
       Sql.relations c !! "order_kind_t" = Some relation ∧
       Sql.hasRowType relation = true) ∧
    Sql.relations c !! "cancel_events" = None ∧
    ("cancel_events" ∉ Sql.types c) ∧
    Sql.relations c !! "cancel_events_pk" = None)) ∧
  (forall c',
     Sql.run Sql.up c = inr c' ->
     Sql.types c' = Sql.types c ∧
     Sql.relations c' !! "cancel_events"
       = Some (Sql.Table Sql.cancel_events_columns
                 (Some ("cancel_events_pk",
                        ["block_hash"; "tx_hash"; "log_index"]))) ∧
     Sql.relations c' !! "cancel_events_pk"
       = Some (Sql.Index "cancel_events"
                 ["block_hash"; "tx_hash"; "log_index"]) ∧
     (forall name,
        name ≠ "cancel_events" -> name ≠ "cancel_events_pk" ->
        Sql.relations c' !! name = Sql.relations c !! name) ∧
     Sql.typeKnown c' (Sql.Named "cancel_events") = true ∧
     Sql.run Sql.up c' = inl Sql.duplicate_table) ∧
  (Sql.relations c !! "cancel_events" = None ->
   Sql.run Sql.down c = inl Sql.undefined_table).
Proof.
  split; [|split].
  - rewrite Sql_up_run, <- Sql_typeExists. split.
    + intros [c' Hrun]. revert Hrun.
      case_bool_decide as Htable; [done|].
      destruct (Sql.typeExists c "order_kind_t"); [|done].
      case_bool_decide as Hname; [done|].
      case_bool_decide as Hindex; [done|].
      intros _. split; [done|].
      split; [by apply eq_None_not_Some|].
      split; [done|]. by apply eq_None_not_Some.
    + intros (Htype & Htable & Hname & Hindex).
      rewrite Htable, Hindex, Htype.
      rewrite (bool_decide_eq_false_2 (is_Some None)) by (by intros [? ?]).
      rewrite bool_decide_eq_false_2 by done. by eexists.
  - intros c'. rewrite Sql_up_run.
    case_bool_decide as Htable; [done|].
    destruct (Sql.typeExists c "order_kind_t"); [|done].
    case_bool_decide as Hname; [done|].
    case_bool_decide as Hindex; [done|].
    intros [= <-]. cbn [Sql.relations Sql.types].
    assert (Hadded : (<["cancel_events_pk" :=
                          Sql.Index "cancel_events"
                            ["block_hash"; "tx_hash"; "log_index"]]>
                        (<["cancel_events" :=
                             Sql.Table Sql.cancel_events_columns
                               (Some ("cancel_events_pk",
                                      ["block_hash"; "tx_hash";
                                       "log_index"]))]>
                           (Sql.relations c))) !! "cancel_events"
                     = Some (Sql.Table Sql.cancel_events_columns
                               (Some ("cancel_events_pk",
                                      ["block_hash"; "tx_hash";
                                       "log_index"])))).
    { rewrite lookup_insert_ne by done. by rewrite lookup_insert_eq. }
    split; [done|]. split; [done|]. split; [by rewrite lookup_insert_eq|].
    split; [|split].
    + intros name Hce Hpk. by rewrite !lookup_insert_ne.
    + unfold Sql.typeKnown, Sql.typeExists.
      cbn [Sql.relations]. rewrite Hadded. apply orb_true_r.
    + rewrite Sql_up_run. cbn [Sql.relations].
      rewrite bool_decide_eq_true_2; [done|]. by rewrite Hadded.
  - intros Habsent. by rewrite Sql_down_run, Habsent.
Qed.

(** ** The route handler *)

Section HandlerFacts.
Context {runtime : Runtime}.
Import UserCollections.

Lemma mapRows_Ok {A B} (f : A -> Outcome B) rows bs :
  mapRows f rows = Ok bs -> Forall2 (fun row b => f row = Ok b) rows bs.
Proof.
  revert bs. induction rows as [|row rows IH]; intros bs; simpl.
  - intros [= <-]. constructor.
  - destruct (f row) as [b|e] eqn:Hrow; [|done]. simpl.
    destruct (mapRows f rows) as [bs'|e]; [|done]. simpl.
    intros [= <-]. constructor; [done|]. by apply IH.
Qed.

Lemma mapRows_Thrown {A B} (f : A -> Outcome B) rows e :
  mapRows f rows = Thrown e -> exists row, row ∈ rows ∧ f row = Thrown e.
Proof.
  induction rows as [|row rows IH]; simpl; [done|].
  destruct (f row) as [b|e'] eqn:Hrow; simpl.
  - destruct (mapRows f rows) as [bs'|e'']; [done|]. simpl.
    intros [= <-]. destruct (IH eq_refl) as (row' & Hin & Hrow').
    exists row'. split; [by right|done].
  - intros [= <-]. exists row. split; [by left|done].
Qed.

Lemma conditions_start query :
  exists more,
    conditions query
    = "nft_balances.owner = $/user/" :: "nft_balances.amount > 0" :: more.
Proof.
  unfold conditions.
  destruct (truthy (get query "community")),
           (truthy (get query "collection")); by eexists.
Qed.

(** X14: the text of the query sent to the database depends only on
    whether [community], [collection] and [includeTopBid] are truthy,
    never on what the request puts in them: requests that agree on these
    three tests get the same text. The [WHERE] clause is never left out
    and always starts with the owner and the positive-amount
    conditions. *)
Theorem queryText_depends_only_on_flags query1 query2 :
  truthy (get query1 "community") = truthy (get query2 "community") ->
  truthy (get query1 "collection") = truthy (get query2 "collection") ->
  truthy (get query1 "includeTopBid") = truthy (get query2 "includeTopBid") ->
  queryText query1 = queryText query2 ∧
  length (conditions query1) ≠ 0%nat ∧
  exists more,
    conditions query1
    = "nft_balances.owner = $/user/" :: "nft_balances.amount > 0" :: more.
Proof.
  intros Hcommunity Hcollection Htop. split; [|split].
  - unfold queryText, topBidQuery, conditions.
    by rewrite Hcommunity, Hcollection, Htop.
  - by destruct (conditions_start query1) as (more & ->).
  - apply conditions_start.
Qed.

(** X15: what the handler does with failures. If the conversion of
    [params.user], the database call or the shaping of a row throws, the
    handler logs that error once, under
    [get-user-collections-v2-handler], and rethrows it. Otherwise it logs
    nothing and returns one response per row, in the order of the rows.
    [request.params.user] is replaced by its buffer as soon as the
    conversion succeeds, and stays replaced when a later step fails. *)
Theorem handler_outcome query st :
  match handler query st with
  | (Ok collections, st') =>
      errors st' = errors st ∧
      exists user rows,
        toBuffer (get (params st) "user") = Ok user ∧
        params st' = <["user" := user]> (params st) ∧
        manyOrNone (queryText query)
          (spread (<["user" := user]> (params st)) query) = Ok rows ∧
        Forall2 (fun row response => toResponse query row = Ok response)
          rows collections
  | (Thrown e, st') =>
      errors st' = errors st ++ [("get-user-collections-v2-handler", e)] ∧
      ((toBuffer (get (params st) "user") = Thrown e ∧
        params st' = params st)
       ∨
       exists user,
         toBuffer (get (params st) "user") = Ok user ∧
         params st' = <["user" := user]> (params st) ∧
         (manyOrNone (queryText query)
            (spread (<["user" := user]> (params st)) query) = Thrown e
          ∨
          exists rows row,
            manyOrNone (queryText query)
              (spread (<["user" := user]> (params st)) query) = Ok rows ∧
            row ∈ rows ∧ toResponse query row = Thrown e))
  end.
Proof.
  unfold handler, handlerBody, tryCatch, bind, lift, modify. simpl.
  destruct (toBuffer (get (params st) "user")) as [user|e] eqn:Huser; simpl.
  - destruct (manyOrNone (queryText query)
                (spread (<["user" := user]> (params st)) query))
      as [rows|e] eqn:Hdb; simpl.
    + destruct (mapRows (toResponse query) rows) as [collections|e] eqn:Hmap;
        simpl.
      * split; [done|]. exists user, rows.
        repeat split; try done. by apply mapRows_Ok.
      * split; [done|]. right. exists user. repeat split; try done.
        right. destruct (mapRows_Thrown _ _ _ Hmap) as (row & Hin & Hrow).
        by exists rows, row.
    + split; [done|]. right. exists user. repeat split; try done. by left.
  - split; [done|]. by left.
Qed.

Lemma formatEthOrNull_falsy v :
  truthy v = false -> formatEthOrNull v = Ok null.
Proof. intros Hv. unfold formatEthOrNull. by rewrite Hv. Qed.

Ltac bind_step H :=
  match type of H with
  | (?o ≫= _) = Ok _ =>
      destruct o as [?v|?e] eqn:?E; [|discriminate H];
      cbn [mbind Outcome_bind] in H
  end.

(** X16: the optional and nullable fields of a response. [topBidValue]
    and [topBidMaker] are present exactly when [query.includeTopBid] is
    truthy; [sampleImages] is always truthy (the row's value, or an empty
    array); [image] is the row's image when that is truthy; and each of
    the formatted amounts -- the floor ask price, the four volumes, the
    three floor sales and the top bid -- is [null] when its column is
    falsy ([null], in particular), as is the top bid's maker. *)
Theorem toResponse_optional_fields query r response :
  toResponse query r = Ok response ->
  (is_Some (topBidValue (collection response))
   ↔ truthy (get query "includeTopBid") = true) ∧
  (is_Some (topBidMaker (collection response))
   ↔ truthy (get query "includeTopBid") = true) ∧
  truthy (sampleImages (collection response)) = true ∧
  (truthy (get r "image") = true ->
   image (collection response) = get r "image") ∧
  (truthy (get r "floor_sell_value") = false ->
   floorAskPrice (collection response) = null) ∧
  (truthy (get r "day1_volume") = false ->
   volume_day1 (volume (collection response)) = null) ∧
  (truthy (get r "day7_volume") = false ->
   volume_day7 (volume (collection response)) = null) ∧
  (truthy (get r "day30_volume") = false ->
   volume_day30 (volume (collection response)) = null) ∧
  (truthy (get r "all_time_volume") = false ->
   volume_allTime (volume (collection response)) = null) ∧
  (truthy (get r "day1_floor_sell_value") = false ->
   floorSale_day1 (floorSale (collection response)) = null) ∧
  (truthy (get r "day7_floor_sell_value") = false ->
   floorSale_day7 (floorSale (collection response)) = null) ∧
  (truthy (get r "day30_floor_sell_value") = false ->
   floorSale_day30 (floorSale (collection response)) = null) ∧
  (truthy (get query "includeTopBid") = true ->
   truthy (get r "top_buy_value") = false ->
   topBidValue (collection response) = Some null) ∧
  (truthy (get query "includeTopBid") = true ->
   truthy (get r "top_buy_maker") = false ->
   topBidMaker (collection response) = Some null).
Proof.
  unfold toResponse. intros Hrun.
  do 9 bind_step Hrun.
  assert (Hsamples : truthy (if truthy (get r "sample_images")
                             then get r "sample_images" else array [])
                     = true).
  { by destruct (truthy (get r "sample_images")) eqn:Hs. }
  assert (Hnull : forall column formatted,
            formatEthOrNull column = Ok formatted ->
            truthy column = false -> formatted = null).
  { intros column formatted Hfmt Hfalsy.
    rewrite (formatEthOrNull_falsy column Hfalsy) in Hfmt.
    by injection Hfmt as <-. }
  destruct (truthy (get query "includeTopBid")) eqn:Htop.
  - do 2 bind_step Hrun. injection Hrun as <-. simpl.
    repeat split; eauto.
    + intros Himage. by rewrite Himage.
    + intros _ Hfalsy. f_equal. eauto.
    + intros _ Hfalsy.
      match goal with
      | Hmaker : fromBufferOrNull _ = Ok ?maker |- Some ?maker = _ =>
          unfold fromBufferOrNull in Hmaker; rewrite Hfalsy in Hmaker;
          by injection Hmaker as <-
      end.
  - injection Hrun as <-. simpl.
    repeat split; eauto; try done; try by intros [? ?].
    intros Himage. by rewrite Himage.
Qed.





End HandlerFacts.

Lemma queryText_depends_only_on_flags_witness :
  @UserCollections.truthy HandlerFixture.runtime
    (@UserCollections.get HandlerFixture.runtime
       HandlerFixture.query1 "community")
  = @UserCollections.truthy HandlerFixture.runtime
      (@UserCollections.get HandlerFixture.runtime
         HandlerFixture.query2 "community") ∧
  HandlerFixture.query1 !! "community"
    ≠ HandlerFixture.query2 !! "community" ∧
  @UserCollections.queryText HandlerFixture.runtime HandlerFixture.query1
  = @UserCollections.queryText HandlerFixture.runtime HandlerFixture.query2.
Proof.
  split; [reflexivity|]. split; [vm_compute; discriminate|].
  exact (proj1 (@queryText_depends_only_on_flags HandlerFixture.runtime
                  HandlerFixture.query1 HandlerFixture.query2
                  eq_refl eq_refl eq_refl)).
Defined.

Lemma toResponse_optional_fields_witness :
  exists response,
    @UserCollections.toResponse HandlerFixture.runtime
      HandlerFixture.query1 HandlerFixture.row = Ok response ∧
    UserCollections.topBidValue (UserCollections.collection response)
      = Some null ∧
    UserCollections.floorAskPrice (UserCollections.collection response)
      = null.
Proof.
  assert (Hrun : exists response,
             @UserCollections.toResponse HandlerFixture.runtime
               HandlerFixture.query1 HandlerFixture.row = Ok response)
    by (eexists; reflexivity).
  destruct Hrun as [response Hrun].
  exists response. split; [exact Hrun|].
  destruct (@toResponse_optional_fields HandlerFixture.runtime
              HandlerFixture.query1 HandlerFixture.row response Hrun)
    as (_ & _ & _ & _ & Hfloor & _ & _ & _ & _ & _ & _ & _ & Hbid & _).
  split; [apply Hbid|apply Hfloor]; vm_compute; reflexivity.
Defined.

